(** * The [life] example of neutrino_examples: ECS storage, scheduler and
      the two domain systems

    Shallow embedding of the [life] program in its revision with the
    [pos]/[size]/[color] uniforms and [components_container]; the revision
    with the model matrix has the same registry, scheduler and
    [MovementSystem]. It is followed by the properties of the storage registry, the scheduler, [MovementSystem]
    and [RenderSystem].

    Conventions of the embedding:
    - [int] is a 32-bit signed integer carried by [Z]; an arithmetic result
      outside the range is undefined behaviour in C++ and is a
      [SignedOverflow] fault here;
    - [std::vector::operator[]] past the end is undefined behaviour and is
      an [OutOfBounds] fault; [std::get] on the wrong alternative throws
      and is a [BadVariantAccess] fault;
    - a reference returned by [component<T>(index)] is a location: reads go
      through [component], writes through [component_assign];
    - [steady_clock] durations and time points are 64-bit counts of
      nanoseconds, with the same treatment of overflow;
    - a [System] reaches the storage through its back-reference, which is
      the storage half of the state the monad [M] threads; the other half is
      the environment of external collaborators the system objects point
      to (for [RenderSystem], the renderer). *)

From Stdlib Require Import ZArith Lia Eqdep_dec Floats.SpecFloat FunInd Recdef.
From stdpp Require Import base list strings.

Open Scope Z_scope.

(** ** Faults and results *)

Inductive Fault : Type :=
| OutOfBounds
| SignedOverflow
| DivisionByZero
| BadVariantAccess.

Inductive Result (A : Type) : Type :=
| Ok (a : A)
| Raise (f : Fault).

Arguments Ok {A} a.
Arguments Raise {A} f.

Definition Result_bind {A B : Type} (r : Result A) (k : A -> Result B) : Result B :=
  match r with
  | Ok a => k a
  | Raise f => Raise f
  end.

(** ** [int]: 32-bit signed arithmetic *)

Module Int.

Definition INT_MIN : Z := - 2 ^ 31.
Definition INT_MAX : Z := 2 ^ 31 - 1.

Definition in_range (z : Z) : bool := (INT_MIN <=? z) && (z <=? INT_MAX).

Definition checked (z : Z) : Result Z :=
  if in_range z then Ok z else Raise SignedOverflow.

Definition add (a b : Z) : Result Z := checked (a + b).
Definition sub (a b : Z) : Result Z := checked (a - b).
Definition mul (a b : Z) : Result Z := checked (a * b).

(** C++ integer division truncates toward zero. *)
Definition div (a b : Z) : Result Z :=
  if b =? 0 then Raise DivisionByZero else checked (a ÷ b).

End Int.

(** ** [float]: IEEE binary32 *)

Definition float : Type := spec_float.

Definition float_prec : Z := 24.
Definition float_emax : Z := 128.

(** [static_cast<float>(int)]: round to nearest, ties to even. *)
Definition float_of_int (z : Z) : float :=
  binary_normalize float_prec float_emax z 0 false.

(** A decimal literal [n / d] with the [f] suffix. *)
Definition float_literal (n d : Z) : float :=
  SFdiv float_prec float_emax (float_of_int n) (float_of_int d).

(** The integer a finite float denotes, when it denotes one. *)
Definition float_to_int_exact (f : float) : option Z :=
  match f with
  | S754_zero _ => Some 0
  | S754_finite s m e =>
      let mag :=
        if 0 <=? e then Some (Z.shiftl (Z.pos m) e)
        else if Z.land (Z.pos m) (Z.ones (- e)) =? 0
             then Some (Z.shiftr (Z.pos m) (- e))
             else None in
      (fun v => if s then - v else v) <$> mag
  | _ => None
  end.

(** ** Framework value types

    [NM::Vector2i], [NM::Vector3f], [NG::Colorf] and [N::Size] are declared
    by the neutrino framework; only their use is in this repository. *)

Record Vector2i : Type := mkVector2i { x : Z; y : Z }.

Inductive Vector3f : Type := mkVector3f (vx vy vz : float).

Record Colorf : Type := mkColorf { r : float; g : float; b : float; a : float }.

(** Modelled from the spec: [N::Size] is not declared in the sources; the
    spec calls it a [(width, height)] pair bounding the rectangular domain
    [[0,W] x [0,H]], and the program builds it from the [int] literals
    [800] and [600]. Its members are taken to be [int]. *)
Record Size : Type := mkSize { width : Z; height : Z }.

(** [NM::Vector3f{v, z}]: the two [int] coordinates converted to [float],
    followed by [z]. *)
Definition Vector3f_of (v : Vector2i) (z : Z) : Vector3f :=
  mkVector3f (float_of_int (x v)) (float_of_int (y v)) (float_of_int z).

(** [operator+=] of [Vector2i]: coordinate-wise [int] addition. *)
Definition Vector2i_add_assign (u v : Vector2i) : Result Vector2i :=
  Result_bind (Int.add (x u) (x v)) (fun nx =>
  Result_bind (Int.add (y u) (y v)) (fun ny =>
  Ok (mkVector2i nx ny))).

(** ** Components *)

Record RenderComponent : Type := mkRenderComponent { color : Colorf }.
Record SizeComponent : Type := mkSizeComponent { size : Vector2i }.
Record PositionComponent : Type := mkPositionComponent { pos : Vector2i }.
Record MovementComponent : Type := mkMovementComponent { offset : Vector2i }.

(** The closed pack [Types...] of
    [ECS<RenderComponent, SizeComponent, PositionComponent, MovementComponent>]. *)
Inductive ComponentType : Type :=
| TRender
| TSize
| TPosition
| TMovement.

Definition component_t (T : ComponentType) : Type :=
  match T with
  | TRender => RenderComponent
  | TSize => SizeComponent
  | TPosition => PositionComponent
  | TMovement => MovementComponent
  end.

Definition ComponentType_eq_dec (A B : ComponentType) : {A = B} + {A <> B}.
Proof. decide equality. Defined.

#[global] Instance ComponentType_EqDecision : EqDecision ComponentType :=
  ComponentType_eq_dec.

Definition Types : list ComponentType := [TRender; TSize; TPosition; TMovement].

(** ** Type resolution: [get_component_index] and [component_index_v] *)

(** [StorageContainer<T>] is [std::vector<T>]. *)
Definition StorageContainer (T : ComponentType) : Type := list (component_t T).

(** [StorageItemType]: the variant of the four vector types; a value is
    the active alternative together with its vector. *)
Definition StorageItemType : Type := { T : ComponentType & StorageContainer T }.

Definition variant_size : nat := length Types.

(** [std::variant_alternative_t<index, StorageItemType>] is the vector of
    the [index]-th type of the pack. *)
Definition variant_alternative (index : nat) : option ComponentType := Types !! index.

(** [get_component_index<VariantType, T, index>()]. The recursion is
    bounded by the alternatives that remain; when none remains
    ([index == variant_size]) the function returns [index], the case the
    [static_assert] rejects at compile time. *)
Fixpoint get_component_index (remaining : nat) (T : ComponentType) (index : nat) : nat :=
  match remaining with
  | O => index
  | S remaining' =>
      match variant_alternative index with
      | Some A =>
          if decide (A = T) then index
          else get_component_index remaining' T (S index)
      | None => index
      end
  end.

Definition component_index_v (T : ComponentType) : nat :=
  get_component_index variant_size T 0.

(** ** The storage registry *)

(** [StorageType]: [std::array<StorageItemType, variant_size>]. *)
Definition StorageType : Type := list StorageItemType.

(** [std::get<StorageContainer<T>>(item)]. *)
Definition std_get (T : ComponentType) (item : StorageItemType) : Result (StorageContainer T) :=
  match decide (projT1 item = T) with
  | left e => Ok (eq_rect (projT1 item) StorageContainer (projT2 item) T e)
  | right _ => Raise BadVariantAccess
  end.

(** [m_storage[index]] on the fixed-size array. *)
Definition array_at (st : StorageType) (index : nat) : Result StorageItemType :=
  match st !! index with
  | Some item => Ok item
  | None => Raise OutOfBounds
  end.

(** [components_container<T>()]. *)
Definition components_container (T : ComponentType) (st : StorageType) : Result (StorageContainer T) :=
  Result_bind (array_at st (component_index_v T)) (std_get T).

(** Writing through the reference [components_container<T>()] returns. *)
Definition components_container_assign (T : ComponentType) (c : StorageContainer T)
    (st : StorageType) : Result StorageType :=
  Result_bind (components_container T st) (fun _ =>
  Ok (<[component_index_v T := existT T c]> st)).

(** [component<T>(index)], read through the returned reference. *)
Definition component (T : ComponentType) (index : nat) (st : StorageType) : Result (component_t T) :=
  Result_bind (components_container T st) (fun c =>
  match c !! index with
  | Some v => Ok v
  | None => Raise OutOfBounds
  end).

(** [component<T>(index) = v], written through the returned reference. *)
Definition component_assign (T : ComponentType) (index : nat) (v : component_t T)
    (st : StorageType) : Result StorageType :=
  Result_bind (components_container T st) (fun c =>
  match c !! index with
  | Some _ => components_container_assign T (<[index := v]> c) st
  | None => Raise OutOfBounds
  end).

(** [add_component(component)] on the storage: [push_back] on the
    container of the argument's type. *)
Definition add_component (T : ComponentType) (v : component_t T) (st : StorageType) : Result StorageType :=
  Result_bind (components_container T st) (fun c =>
  components_container_assign T (c ++ [v]) st).

(** The array as the constructor leaves it: slot [i] holds the container
    of the [i]-th type. *)
Definition mk_storage (rs : list RenderComponent) (ss : list SizeComponent)
    (ps : list PositionComponent) (ms : list MovementComponent) : StorageType :=
  [existT TRender rs; existT TSize ss; existT TPosition ps; existT TMovement ms].

(** The invariant the constructor establishes: the array has
    [variant_size] slots and the slot of every declared type holds that
    type's alternative. *)
Definition storage_wf (st : StorageType) : Prop :=
  length st = variant_size /\
  forall T : ComponentType, exists c : StorageContainer T,
    st !! component_index_v T = Some (existT T c).

(** ** The monad of system code

    A system's [update()] runs against the storage of the [ECS] that owns
    it (the back-reference installed by [set_storage]) and against the
    environment [Env] of the collaborators it references. *)

Section Runtime.

Context {Env : Type}.

Definition M (A : Type) : Type :=
  StorageType * Env -> Result (A * (StorageType * Env)).

Definition ret {A : Type} (v : A) : M A := fun w => Ok (v, w).

Definition bind {A B : Type} (m : M A) (k : A -> M B) : M B :=
  fun w =>
    match m w with
    | Ok (v, w') => k v w'
    | Raise f => Raise f
    end.

Definition lift {A : Type} (res : Result A) : M A :=
  fun w =>
    match res with
    | Ok v => Ok (v, w)
    | Raise f => Raise f
    end.

(** [storage().op(...)] for a [const] operation of the registry. *)
Definition storage_read {A : Type} (op : StorageType -> Result A) : M A :=
  fun w => lift (op w.1) w.

(** [storage().op(...)] for an operation that writes the registry. *)
Definition storage_write (op : StorageType -> Result StorageType) : M unit :=
  fun w =>
    match op w.1 with
    | Ok st => Ok (tt, (st, w.2))
    | Raise f => Raise f
    end.

(** A call on a collaborator held by reference. *)
Definition env_call (op : Env -> Env) : M unit :=
  fun w => Ok (tt, (w.1, op w.2)).

(** [for (std::size_t index = start; index < start + count; ++index) body(index)]. *)
Fixpoint for_index_from (start count : nat) (body : nat -> M unit) : M unit :=
  match count with
  | O => ret tt
  | S count' => bind (body start) (fun _ => for_index_from (S start) count' body)
  end.

Definition for_index (count : nat) (body : nat -> M unit) : M unit :=
  for_index_from 0 count body.

(** *** The System contract *)

(** [System<ECSType>]: the one virtual operation. *)
Class System (S : Type) : Type := update : S -> M unit.

(** [std::unique_ptr<SystemType>]: an object behind its dynamic type. *)
Record SystemPtr : Type := mkSystemPtr {
  system_t : Type;
  system_vtable : System system_t;
  system_obj : system_t
}.

(** [s->update()]. *)
Definition SystemPtr_update (s : SystemPtr) : M unit :=
  @update (system_t s) (system_vtable s) (system_obj s).

(** *** The scheduler *)

Record ECS : Type := mkECS {
  m_storage : StorageType;
  m_systems : list SystemPtr
}.

(** [ECS()]: the array is value-initialised (every variant holds its
    first alternative, empty) and the fold assigns an empty container of
    each type of the pack to successive slots. *)
Definition ECS_ctor : ECS :=
  let default_item : StorageItemType := existT TRender [] in
  let assign (acc : nat * StorageType) (T : ComponentType) :=
    (S acc.1, <[acc.1 := existT T []]> acc.2) in
  mkECS (foldl assign (O, replicate variant_size default_item) Types).2 [].

(** [ECS::add_component]. *)
Definition ECS_add_component (T : ComponentType) (v : component_t T) (self : ECS) : Result ECS :=
  Result_bind (add_component T v (m_storage self)) (fun st =>
  Ok (mkECS st (m_systems self))).

(** [ECS::add_system]. *)
Definition ECS_add_system (s : SystemPtr) (self : ECS) : ECS :=
  mkECS (m_storage self) (m_systems self ++ [s]).

(** [for (auto &s : m_systems) s->update();] *)
Fixpoint for_each_system (systems : list SystemPtr) : M unit :=
  match systems with
  | [] => ret tt
  | s :: rest => bind (SystemPtr_update s) (fun _ => for_each_system rest)
  end.

(** [ECS::update]. *)
Definition ECS_update (self : ECS) (env : Env) : Result (ECS * Env) :=
  match for_each_system (m_systems self) (m_storage self, env) with
  | Ok (_, (st, env')) => Ok (mkECS st (m_systems self), env')
  | Raise f => Raise f
  end.

(** [ticks] consecutive calls of [ECS::update]. *)
Fixpoint ECS_update_n (ticks : nat) (self : ECS) (env : Env) : Result (ECS * Env) :=
  match ticks with
  | O => Ok (self, env)
  | S ticks' =>
      match ECS_update self env with
      | Ok (self', env') => ECS_update_n ticks' self' env'
      | Raise f => Raise f
      end
  end.

End Runtime.

Arguments M : clear implicits.
Arguments SystemPtr : clear implicits.
Arguments ECS : clear implicits.
Arguments System : clear implicits.

Notation "v <- m ;; k" := (bind m (fun v => k))
  (at level 100, m at next level, right associativity).
Notation "m ;; k" := (bind m (fun _ => k))
  (at level 100, right associativity).

(** ** The renderer collaborator *)

Definition ResourceId : Type := N.

Inductive UniformValue : Type :=
| UniformVector3f (v : Vector3f)
| UniformColorf (c : Colorf).

(** [NG::Uniform{name, value}]. *)
Record Uniform : Type := mkUniform {
  uniform_name : string;
  uniform_value : UniformValue
}.

Record DrawSubmission : Type := mkDrawSubmission {
  draw_mesh : ResourceId;
  draw_shader : ResourceId;
  draw_uniforms : list Uniform
}.

(** Modelled from the spec: [NG::Renderer] belongs to the neutrino
    framework; the spec gives [render(mesh_handle, shader_handle,
    uniform_bindings)] as "enqueues one draw", with the bindings an ordered
    set of (name, value) pairs. The renderer is the queue of the draws
    submitted so far, oldest first. *)
Definition Renderer : Type := list DrawSubmission.

Definition Renderer_render (mesh shader : ResourceId) (uniforms : list Uniform)
    (self : Renderer) : Renderer :=
  self ++ [mkDrawSubmission mesh shader uniforms].

Record RenderSystem : Type := mkRenderSystem {
  m_mesh_id : ResourceId;
  m_shader_id : ResourceId
}.

(** ** MovementSystem *)

Record MovementSystem : Type := mkMovementSystem { m_size : Size }.

(** [pos + size / 2 > extent || pos - size / 2 < 0], with the short
    circuit of [||]. *)
Definition crosses_boundary (pos size extent : Z) : Result bool :=
  Result_bind (Int.div size 2) (fun half =>
  Result_bind (Int.add pos half) (fun far =>
  if far >? extent then Ok true
  else
    Result_bind (Int.div size 2) (fun half' =>
    Result_bind (Int.sub pos half') (fun near =>
    Ok (near <? 0))))).

Section Systems.

(** [constexpr std::size_t EntityesCount]: [100000], and [1] in the
    revision with the model matrix. *)
Variable EntityesCount : nat.

Section Movement.

Context {Env : Type}.

(** The body of the loop of [MovementSystem::update]. *)
Definition MovementSystem_update_entity (self : MovementSystem) (index : nat) : M Env unit :=
  p <- storage_read (component TPosition index) ;;
  s <- storage_read (component TSize index) ;;
  m <- storage_read (component TMovement index) ;;
  flip_x <- lift (crosses_boundary (x (pos p)) (x (size s)) (width (m_size self))) ;;
  m <- (if flip_x : bool then
          ox <- lift (Int.mul (x (offset m)) (-1)) ;;
          let m' := mkMovementComponent (mkVector2i ox (y (offset m))) in
          storage_write (component_assign TMovement index m') ;;
          ret m'
        else ret m) ;;
  flip_y <- lift (crosses_boundary (y (pos p)) (y (size s)) (height (m_size self))) ;;
  m <- (if flip_y : bool then
          oy <- lift (Int.mul (y (offset m)) (-1)) ;;
          let m' := mkMovementComponent (mkVector2i (x (offset m)) oy) in
          storage_write (component_assign TMovement index m') ;;
          ret m'
        else ret m) ;;
  new_pos <- lift (Vector2i_add_assign (pos p) (offset m)) ;;
  storage_write (component_assign TPosition index (mkPositionComponent new_pos)).

Definition MovementSystem_update (self : MovementSystem) : M Env unit :=
  for_index EntityesCount (MovementSystem_update_entity self).

#[global] Instance MovementSystem_System : System Env MovementSystem :=
  MovementSystem_update.

End Movement.

(** *** RenderSystem *)

(** [m_renderer] is a reference to the renderer of the application: the
    environment of the monad. *)
Definition RenderSystem_update_entity (self : RenderSystem) (index : nat) : M Renderer unit :=
  r <- storage_read (component TRender index) ;;
  s <- storage_read (component TSize index) ;;
  p <- storage_read (component TPosition index) ;;
  env_call (Renderer_render (m_mesh_id self) (m_shader_id self)
    [ mkUniform "pos" (UniformVector3f (Vector3f_of (pos p) 0));
      mkUniform "size" (UniformVector3f (Vector3f_of (size s) 1));
      mkUniform "color" (UniformColorf (color r)) ]).

Definition RenderSystem_update (self : RenderSystem) : M Renderer unit :=
  for_index EntityesCount (RenderSystem_update_entity self).

#[global] Instance RenderSystem_System : System Renderer RenderSystem :=
  RenderSystem_update.

(** *** Setup: the part of [App::init] that touches the scheduler *)

(** The values [NU::random_numbers] returns in one iteration of the
    population loop. *)
Record RandomDraw : Type := mkRandomDraw {
  rnd_color : float * float * float;
  rnd_size : Z * Z;
  rnd_pos : Z * Z;
  rnd_offset : Z * Z
}.

(** One iteration: the four components of a new entity. *)
Definition App_init_entity (d : RandomDraw) (ecs : ECS Renderer) : Result (ECS Renderer) :=
  let '(c0, c1, _) := rnd_color d in
  let rc := mkRenderComponent (mkColorf c0 c1 c1 (float_literal 1 1)) in
  let sc := mkSizeComponent (mkVector2i (rnd_size d).1 (rnd_size d).2) in
  let pc := mkPositionComponent (mkVector2i (rnd_pos d).1 (rnd_pos d).2) in
  let mc := mkMovementComponent (mkVector2i (rnd_offset d).1 (rnd_offset d).2) in
  Result_bind (ECS_add_component TRender rc ecs) (fun ecs =>
  Result_bind (ECS_add_component TSize sc ecs) (fun ecs =>
  Result_bind (ECS_add_component TPosition pc ecs) (fun ecs =>
  ECS_add_component TMovement mc ecs))).

(** [for (std::size_t i = start; i < start + count; ++i)] of the
    population loop; [random i] is what the generator yields in
    iteration [i]. *)
Fixpoint App_init_entities (random : nat -> RandomDraw) (start count : nat)
    (ecs : ECS Renderer) : Result (ECS Renderer) :=
  match count with
  | O => Ok ecs
  | S count' =>
      Result_bind (App_init_entity (random start) ecs)
        (App_init_entities random (S start) count')
  end.

Definition App_mesh_id : ResourceId := 1%N.
Definition App_particle_shader_id : ResourceId := 1%N.

Definition App_init (random : nat -> RandomDraw) : Result (ECS Renderer) :=
  Result_bind (App_init_entities random 0 EntityesCount ECS_ctor) (fun ecs =>
  let ecs := ECS_add_system
    (mkSystemPtr RenderSystem _ (mkRenderSystem App_mesh_id App_particle_shader_id)) ecs in
  let ecs := ECS_add_system
    (mkSystemPtr MovementSystem _ (mkMovementSystem (mkSize 800 600))) ecs in
  Ok ecs).

End Systems.

(** * Definitions used by the statements *)

(** The container of [T] among the four. *)
Definition select (T : ComponentType) (rs : list RenderComponent) (ss : list SizeComponent)
    (ps : list PositionComponent) (ms : list MovementComponent) : StorageContainer T :=
  match T with
  | TRender => rs
  | TSize => ss
  | TPosition => ps
  | TMovement => ms
  end.

(** The four containers with the one of [T] replaced. *)
Definition replace (T : ComponentType) (c : StorageContainer T) (rs : list RenderComponent)
    (ss : list SizeComponent) (ps : list PositionComponent) (ms : list MovementComponent)
    : StorageType :=
  match T return StorageContainer T -> StorageType with
  | TRender => fun c => mk_storage c ss ps ms
  | TSize => fun c => mk_storage rs c ps ms
  | TPosition => fun c => mk_storage rs ss c ms
  | TMovement => fun c => mk_storage rs ss ps c
  end c.

(** The offset of one axis after the reflection test. *)
Definition reflect_axis (pos size extent off : Z) : Result Z :=
  Result_bind (crosses_boundary pos size extent) (fun flip =>
  if flip : bool then Int.mul off (-1) else Ok off).

(** The loop body as a function of the three components it reads. *)
Definition MovementSystem_step (self : MovementSystem) (p : PositionComponent)
    (s : SizeComponent) (m : MovementComponent) : Result (PositionComponent * MovementComponent) :=
  Result_bind (reflect_axis (x (pos p)) (x (size s)) (width (m_size self)) (x (offset m))) (fun ox =>
  Result_bind (reflect_axis (y (pos p)) (y (size s)) (height (m_size self)) (y (offset m))) (fun oy =>
  Result_bind (Vector2i_add_assign (pos p) (mkVector2i ox oy)) (fun np =>
  Ok (mkPositionComponent np, mkMovementComponent (mkVector2i ox oy))))).

(** The reflection condition of one axis: the far edge [pos + size/2] is
    past [extent] or the near edge [pos - size/2] is below zero. *)
Definition box_outside (pos size extent : Z) : bool :=
  (pos + size ÷ 2 >? extent) || (pos - size ÷ 2 <? 0).

(** The offset of one axis after the tick. *)
Definition reflected (pos size extent off : Z) : Z :=
  if box_outside pos size extent then - off else off.

(** A value an [int] can hold. *)
Definition representable (z : Z) : Prop := Int.INT_MIN <= z <= Int.INT_MAX.

(** The [int] operations of one axis stay in range. *)
Definition axis_in_range (pos size extent off : Z) : Prop :=
  representable (size ÷ 2) /\
  representable (pos + size ÷ 2) /\
  (pos + size ÷ 2 <= extent -> representable (pos - size ÷ 2)) /\
  (box_outside pos size extent = true -> representable (- off)) /\
  representable (pos + reflected pos size extent off).

(** The [int] operations of the loop body stay in range for one entity. *)
Definition step_in_range (self : MovementSystem) (p : PositionComponent)
    (s : SizeComponent) (m : MovementComponent) : Prop :=
  axis_in_range (x (pos p)) (x (size s)) (width (m_size self)) (x (offset m)) /\
  axis_in_range (y (pos p)) (y (size s)) (height (m_size self)) (y (offset m)).

(** The submission [RenderSystem::update] makes for one entity. *)
Definition entity_draw (self : RenderSystem) (rc : RenderComponent) (sc : SizeComponent)
    (pc : PositionComponent) : DrawSubmission :=
  mkDrawSubmission (m_mesh_id self) (m_shader_id self)
    [ mkUniform "pos" (UniformVector3f (Vector3f_of (pos pc) 0));
      mkUniform "size" (UniformVector3f (Vector3f_of (size sc) 1));
      mkUniform "color" (UniformColorf (color rc)) ].

(** The length of the container of [T]. *)
Definition container_length (T : ComponentType) (st : StorageType) : Result nat :=
  Result_bind (components_container T st) (fun c => Ok (length c)).

(** The systems [App::init] registers, for a population of [count]:
    a [RenderSystem] or a [MovementSystem] behind the [System] interface. *)
Definition is_domain_system (count : nat) (s : SystemPtr Renderer) : Prop :=
  (exists self : RenderSystem,
     s = mkSystemPtr RenderSystem (RenderSystem_System count) self) \/
  (exists self : MovementSystem,
     s = mkSystemPtr MovementSystem (MovementSystem_System count) self).

(** The calls the application makes on its scheduler. *)
Inductive Call : Type :=
| CallAddComponent (T : ComponentType) (v : component_t T)
| CallAddRenderSystem (self : RenderSystem)
| CallAddMovementSystem (self : MovementSystem)
| CallUpdate.

Definition ECS_call (count : nat) (c : Call) (w : ECS Renderer * Renderer)
    : Result (ECS Renderer * Renderer) :=
  match c with
  | CallAddComponent T v =>
      Result_bind (ECS_add_component T v w.1) (fun ecs => Ok (ecs, w.2))
  | CallAddRenderSystem self =>
      Ok (ECS_add_system (mkSystemPtr RenderSystem (RenderSystem_System count) self) w.1, w.2)
  | CallAddMovementSystem self =>
      Ok (ECS_add_system (mkSystemPtr MovementSystem (MovementSystem_System count) self) w.1, w.2)
  | CallUpdate => ECS_update w.1 w.2
  end.

Fixpoint ECS_calls (count : nat) (cs : list Call) (w : ECS Renderer * Renderer)
    : Result (ECS Renderer * Renderer) :=
  match cs with
  | [] => Ok w
  | c :: cs' => Result_bind (ECS_call count c w) (ECS_calls count cs')
  end.

Definition is_add (T : ComponentType) (c : Call) : bool :=
  match c with
  | CallAddComponent U _ => bool_decide (U = T)
  | _ => false
  end.

(** How many [add_component] calls of type [T] a sequence holds. *)
Definition count_adds (T : ComponentType) (cs : list Call) : nat :=
  length (List.filter (is_add T) cs).

(** A test system for the scheduler: its [update()] appends the system's
    identifier to a log shared by all systems (the environment) and leaves
    the storage alone. *)
Record ProbeSystem : Type := mkProbeSystem { probe_id : nat }.

Definition ProbeSystem_update (self : ProbeSystem) : M (list nat) unit :=
  env_call (fun log => log ++ [probe_id self]).

#[global] Instance ProbeSystem_System : System (list nat) ProbeSystem :=
  ProbeSystem_update.

Definition probe (id : nat) : SystemPtr (list nat) :=
  mkSystemPtr ProbeSystem ProbeSystem_System (mkProbeSystem id).

(** ** Sample states *)

(** The domain [App::init] gives its [MovementSystem]. *)
Definition window_domain : MovementSystem := mkMovementSystem (mkSize 800 600).

(** The [RenderSystem] [App::init] registers. *)
Definition sample_render_system : RenderSystem :=
  mkRenderSystem App_mesh_id App_particle_shader_id.

(** The colour [(0.5, 0.6, 0.6, 1.0)]. *)
Definition sample_color : Colorf :=
  mkColorf (float_literal 5 10) (float_literal 6 10) (float_literal 6 10) (float_literal 1 1).

(** Two entities: one in the corner with its box across both near
    boundaries, one well inside the domain. *)
Definition sample_storage : StorageType :=
  mk_storage
    [mkRenderComponent sample_color; mkRenderComponent sample_color]
    [mkSizeComponent (mkVector2i 2 2); mkSizeComponent (mkVector2i 14 18)]
    [mkPositionComponent (mkVector2i 0 0); mkPositionComponent (mkVector2i 150 150)]
    [mkMovementComponent (mkVector2i (-5) (-5)); mkMovementComponent (mkVector2i 5 (-3))].

(** [sample_storage] after one tick of [MovementSystem]. *)
Definition sample_storage_moved : StorageType :=
  mk_storage
    [mkRenderComponent sample_color; mkRenderComponent sample_color]
    [mkSizeComponent (mkVector2i 2 2); mkSizeComponent (mkVector2i 14 18)]
    [mkPositionComponent (mkVector2i 5 5); mkPositionComponent (mkVector2i 155 147)]
    [mkMovementComponent (mkVector2i 5 5); mkMovementComponent (mkVector2i 5 (-3))].

(** One entity whose box is across the near boundary of the x axis while
    its offset points back into the domain, and the state one tick
    later. *)
Definition bounce_storage : StorageType :=
  mk_storage [mkRenderComponent sample_color] [mkSizeComponent (mkVector2i 4 4)]
    [mkPositionComponent (mkVector2i 0 100)] [mkMovementComponent (mkVector2i 3 0)].

Definition bounce_storage_1 : StorageType :=
  mk_storage [mkRenderComponent sample_color] [mkSizeComponent (mkVector2i 4 4)]
    [mkPositionComponent (mkVector2i (-3) 100)] [mkMovementComponent (mkVector2i (-3) 0)].

(** A scheduler over [sample_storage] with the two domain systems, for a
    population of two. *)
Definition sample_ecs : ECS Renderer :=
  mkECS sample_storage
    [ mkSystemPtr RenderSystem (RenderSystem_System 2) sample_render_system;
      mkSystemPtr MovementSystem (MovementSystem_System 2) window_domain ].

(** A tick, one more size, and a tick. *)
Definition sample_calls : list Call :=
  [CallUpdate; CallAddComponent TSize (mkSizeComponent (mkVector2i 15 15)); CallUpdate].

(** What [RenderSystem] submits for [sample_storage] and for
    [sample_storage_moved]. *)
Definition sample_draws : Renderer :=
  [ entity_draw sample_render_system (mkRenderComponent sample_color)
      (mkSizeComponent (mkVector2i 2 2)) (mkPositionComponent (mkVector2i 0 0));
    entity_draw sample_render_system (mkRenderComponent sample_color)
      (mkSizeComponent (mkVector2i 14 18)) (mkPositionComponent (mkVector2i 150 150)) ].

Definition sample_draws_moved : Renderer :=
  [ entity_draw sample_render_system (mkRenderComponent sample_color)
      (mkSizeComponent (mkVector2i 2 2)) (mkPositionComponent (mkVector2i 5 5));
    entity_draw sample_render_system (mkRenderComponent sample_color)
      (mkSizeComponent (mkVector2i 14 18)) (mkPositionComponent (mkVector2i 155 147)) ].

(** [sample_ecs] after two ticks, and after [sample_calls]. *)
Definition sample_ecs_after_ticks : ECS Renderer :=
  mkECS
    (mk_storage
       [mkRenderComponent sample_color; mkRenderComponent sample_color]
       [mkSizeComponent (mkVector2i 2 2); mkSizeComponent (mkVector2i 14 18)]
       [mkPositionComponent (mkVector2i 10 10); mkPositionComponent (mkVector2i 160 144)]
       [mkMovementComponent (mkVector2i 5 5); mkMovementComponent (mkVector2i 5 (-3))])
    (m_systems sample_ecs).

Definition sample_ecs_after_calls : ECS Renderer :=
  mkECS
    (mk_storage
       [mkRenderComponent sample_color; mkRenderComponent sample_color]
       [mkSizeComponent (mkVector2i 2 2); mkSizeComponent (mkVector2i 14 18);
        mkSizeComponent (mkVector2i 15 15)]
       [mkPositionComponent (mkVector2i 10 10); mkPositionComponent (mkVector2i 160 144)]
       [mkMovementComponent (mkVector2i 5 5); mkMovementComponent (mkVector2i 5 (-3))])
    (m_systems sample_ecs).

(** ** The frame counter of [App]

    [std::chrono::steady_clock::duration] counts nanoseconds in a signed
    64-bit integer; a [time_point] is such a count since the clock's
    epoch. *)

Module Int64.

Definition INT64_MIN : Z := - 2 ^ 63.
Definition INT64_MAX : Z := 2 ^ 63 - 1.

Definition in_range (z : Z) : bool := (INT64_MIN <=? z) && (z <=? INT64_MAX).

Definition checked (z : Z) : Result Z :=
if in_range z then Ok z else Raise SignedOverflow.

Definition add (a b : Z) : Result Z := checked (a + b).
Definition sub (a b : Z) : Result Z := checked (a - b).

End Int64.

(** [std::chrono::seconds(1)] as a [steady_clock::duration]. *)
Definition one_second : Z := 1000000000.

(** The members of [App] that [tick] and [run] use for the frame rate. *)
Record FrameCounter : Type := mkFrameCounter {
  m_fps : Z;
  m_current_fps : Z;
  m_frame_time : Z;
  m_last_frame_duration : Z;
  m_last_frame_time : Z
}.

(** The whole seconds in the accumulated time: what the loop of [tick]
    uses up. *)
Definition seconds_left (self : FrameCounter) : nat :=
  Z.to_nat (m_frame_time self / one_second).

(** [while (m_frame_time > std::chrono::seconds(1)) { m_frame_time -=
    std::chrono::seconds(1); m_fps = m_current_fps; m_current_fps = 0; }].
    The subtraction is of one second from a larger stored value, so it
    stays in range. *)
Function tick_rollover (self : FrameCounter) {measure seconds_left self} : FrameCounter :=
  if m_frame_time self >? one_second
  then tick_rollover
         (mkFrameCounter (m_current_fps self) 0 (m_frame_time self - one_second)
            (m_last_frame_duration self) (m_last_frame_time self))
  else self.
Proof.
  intros self H. unfold seconds_left. cbn [m_frame_time].
  apply Z.gtb_lt in H.
  replace (m_frame_time self)
    with ((m_frame_time self - one_second) + 1 * one_second) at 2 by lia.
  rewrite Z.div_add by (unfold one_second; lia).
  assert (0 <= (m_frame_time self - one_second) / one_second)
    by (apply Z.div_pos; unfold one_second in *; lia).
  lia.
Defined.

(** [App::tick], with [now] the value of [steady_clock::now()]. *)
Definition App_tick (now : Z) (self : FrameCounter) : Result FrameCounter :=
  Result_bind (Int64.sub now (m_last_frame_time self)) (fun duration =>
  Result_bind (Int64.add (m_frame_time self) duration) (fun frame_time =>
  let self :=
    tick_rollover
      (mkFrameCounter (m_fps self) (m_current_fps self) frame_time duration now) in
  Result_bind (Int.add (m_current_fps self) 1) (fun current_fps =>
  Ok (mkFrameCounter (m_fps self) current_fps (m_frame_time self)
        (m_last_frame_duration self) (m_last_frame_time self))))).

(** The start of [App::run]: [m_frame_time = milliseconds(0)] and
    [m_last_frame_time = now()]. *)
Definition App_run_start (now : Z) (self : FrameCounter) : FrameCounter :=
  mkFrameCounter (m_fps self) (m_current_fps self) 0 (m_last_frame_duration self) now.

(** The calls of [tick] of consecutive frames, with the clock readings
    [nows]. *)
Fixpoint App_ticks (nows : list Z) (self : FrameCounter) : Result FrameCounter :=
  match nows with
  | [] => Ok self
  | now :: rest => Result_bind (App_tick now self) (App_ticks rest)
  end.

(** ** Definitions used by the further properties *)

(** Two offsets of the same speed on each axis. *)
Definition same_speed (m m' : MovementComponent) : Prop :=
  Z.abs (x (offset m')) = Z.abs (x (offset m)) /\
  Z.abs (y (offset m')) = Z.abs (y (offset m)).

(** What ticks keep of a storage: its form, every colour and size, the
    lengths, and the speed of every offset. *)
Definition tick_related (st st' : StorageType) : Prop :=
  storage_wf st' /\
  (forall index, component TRender index st' = component TRender index st) /\
  (forall index, component TSize index st' = component TSize index st) /\
  (forall T, container_length T st' = container_length T st) /\
  (forall index m,
     component TMovement index st = Ok m ->
     exists m', component TMovement index st' = Ok m' /\ same_speed m m').

(** The components [App::init] builds from the random numbers of one
    iteration. *)
Definition draw_render (d : RandomDraw) : RenderComponent :=
  let '(c0, c1, _) := rnd_color d in
  mkRenderComponent (mkColorf c0 c1 c1 (float_literal 1 1)).

Definition draw_size (d : RandomDraw) : SizeComponent :=
  mkSizeComponent (mkVector2i (rnd_size d).1 (rnd_size d).2).

Definition draw_position (d : RandomDraw) : PositionComponent :=
  mkPositionComponent (mkVector2i (rnd_pos d).1 (rnd_pos d).2).

Definition draw_movement (d : RandomDraw) : MovementComponent :=
  mkMovementComponent (mkVector2i (rnd_offset d).1 (rnd_offset d).2).

(** A value a [steady_clock::duration] can hold. *)
Definition representable64 (z : Z) : Prop := Int64.INT64_MIN <= z <= Int64.INT64_MAX.

(** Clock readings that never go back, starting from [from]. *)
Fixpoint monotone_from (from : Z) (nows : list Z) : Prop :=
  match nows with
  | [] => True
  | now :: rest => from <= now /\ monotone_from now rest
  end.

(** What [App::tick] leaves when its arithmetic stays in range, with the
    loop in closed form. *)
Definition App_tick_result (now : Z) (self : FrameCounter) : FrameCounter :=
  let total := m_frame_time self + (now - m_last_frame_time self) in
  mkFrameCounter
    (if total <=? one_second then m_fps self
     else if total <=? 2 * one_second then m_current_fps self else 0)
    ((if total <=? one_second then m_current_fps self else 0) + 1)
    (if total <=? one_second then total else (total - 1) mod one_second + 1)
    (now - m_last_frame_time self) now.

(** * Properties *)

(** ** Type resolution *)

Lemma component_index_v_values :
  map component_index_v Types = [0; 1; 2; 3]%nat.
Proof. reflexivity. Qed.

(** The [static_assert] of [get_component_index] holds for every type of
    the pack. *)
Lemma component_index_v_lt (T : ComponentType) :
  (component_index_v T < variant_size)%nat.
Proof. destruct T; vm_compute; lia. Qed.

Lemma component_index_v_alternative (T : ComponentType) :
  variant_alternative (component_index_v T) = Some T.
Proof. destruct T; reflexivity. Qed.

Lemma component_index_v_inj (T U : ComponentType) :
  component_index_v T = component_index_v U -> T = U.
Proof. destruct T, U; (reflexivity || discriminate). Qed.

(** ** The variant *)

Lemma std_get_existT (T : ComponentType) (c : StorageContainer T) :
  std_get T (existT T c) = Ok c.
Proof.
  unfold std_get; simpl.
  destruct (decide (T = T)) as [e | ne]; [| congruence].
  rewrite (UIP_dec ComponentType_eq_dec e eq_refl). reflexivity.
Qed.

Lemma std_get_other (T U : ComponentType) (c : StorageContainer U) :
  U <> T -> std_get T (existT U c) = Raise BadVariantAccess.
Proof.
  intros ne. unfold std_get; simpl.
  destruct (decide (U = T)); [congruence | reflexivity].
Qed.

(** ** Storage in constructor form *)

Section MkStorage.

Variables (rs : list RenderComponent) (ss : list SizeComponent)
          (ps : list PositionComponent) (ms : list MovementComponent).

Lemma mk_storage_lookup (T : ComponentType) :
  mk_storage rs ss ps ms !! component_index_v T = Some (existT T (select T rs ss ps ms)).
Proof. destruct T; reflexivity. Qed.

Lemma mk_storage_wf : storage_wf (mk_storage rs ss ps ms).
Proof.
  split; [reflexivity |].
  intros T. exists (select T rs ss ps ms). apply mk_storage_lookup.
Qed.

Lemma components_container_mk (T : ComponentType) :
  components_container T (mk_storage rs ss ps ms) = Ok (select T rs ss ps ms).
Proof.
  unfold components_container, array_at.
  rewrite mk_storage_lookup. simpl. apply std_get_existT.
Qed.

Lemma components_container_assign_mk (T : ComponentType) (c : StorageContainer T) :
  components_container_assign T c (mk_storage rs ss ps ms) = Ok (replace T c rs ss ps ms).
Proof.
  unfold components_container_assign.
  rewrite components_container_mk. simpl.
  destruct T; reflexivity.
Qed.

Lemma component_mk (T : ComponentType) (index : nat) :
  component T index (mk_storage rs ss ps ms) =
  match select T rs ss ps ms !! index with
  | Some v => Ok v
  | None => Raise OutOfBounds
  end.
Proof. unfold component. rewrite components_container_mk. reflexivity. Qed.

Lemma component_assign_mk (T : ComponentType) (index : nat) (v : component_t T) :
  component_assign T index v (mk_storage rs ss ps ms) =
  match select T rs ss ps ms !! index with
  | Some _ => Ok (replace T (<[index := v]> (select T rs ss ps ms)) rs ss ps ms)
  | None => Raise OutOfBounds
  end.
Proof.
  unfold component_assign. rewrite components_container_mk. simpl.
  destruct (select T rs ss ps ms !! index); [| reflexivity].
  apply components_container_assign_mk.
Qed.

Lemma add_component_mk (T : ComponentType) (v : component_t T) :
  add_component T v (mk_storage rs ss ps ms) =
  Ok (replace T (select T rs ss ps ms ++ [v]) rs ss ps ms).
Proof.
  unfold add_component. rewrite components_container_mk. simpl.
  apply components_container_assign_mk.
Qed.

End MkStorage.

Lemma select_replace_same (T : ComponentType) (c : StorageContainer T) rs ss ps ms :
  components_container T (replace T c rs ss ps ms) = Ok c.
Proof. destruct T; apply components_container_mk. Qed.

Lemma select_replace_other (T U : ComponentType) (c : StorageContainer T) rs ss ps ms :
  U <> T ->
  components_container U (replace T c rs ss ps ms) = Ok (select U rs ss ps ms).
Proof.
  intros ne. destruct T; simpl; rewrite components_container_mk; destruct U; try reflexivity; congruence.
Qed.

(** Every well-formed storage is in constructor form. *)
Lemma storage_wf_mk (st : StorageType) :
  storage_wf st -> exists rs ss ps ms, st = mk_storage rs ss ps ms.
Proof.
  intros [Hlen Hslot].
  destruct (Hslot TRender) as [rs Hr], (Hslot TSize) as [ss Hs],
           (Hslot TPosition) as [ps Hp], (Hslot TMovement) as [ms Hm].
  exists rs, ss, ps, ms.
  destruct st as [| i0 [| i1 [| i2 [| i3 [| ? ?]]]]]; try discriminate Hlen.
  change (Some i0 = Some (existT TRender rs)) in Hr.
  change (Some i1 = Some (existT TSize ss)) in Hs.
  change (Some i2 = Some (existT TPosition ps)) in Hp.
  change (Some i3 = Some (existT TMovement ms)) in Hm.
  unfold mk_storage.
  injection Hr as ->. injection Hs as ->. injection Hp as ->. injection Hm as ->.
  reflexivity.
Qed.

Lemma ECS_ctor_storage (Env : Type) :
  m_storage (@ECS_ctor Env) = mk_storage [] [] [] [].
Proof. reflexivity. Qed.

(** ** One entity of [MovementSystem::update] *)

(** Bring the containers of a storage in constructor form to their
    concrete list types. *)
Ltac norm_storage :=
  unfold StorageContainer; cbn [select replace component_t].

Section MovementEntity.

Context {Env : Type}.
Variables (self : MovementSystem) (env : Env).

Lemma MovementSystem_update_entity_mk (index : nat) rs ss ps ms :
  MovementSystem_update_entity self index (mk_storage rs ss ps ms, env) =
  match ps !! index, ss !! index, ms !! index with
  | Some p, Some s, Some m =>
      match MovementSystem_step self p s m with
      | Ok (p', m') =>
          Ok (tt, (mk_storage rs ss (<[index := p']> ps) (<[index := m']> ms), env))
      | Raise f => Raise f
      end
  | _, _, _ => Raise OutOfBounds
  end.
Proof.
  unfold MovementSystem_update_entity, bind, storage_read, storage_write, lift, ret.
  cbn [fst snd]. rewrite component_mk. norm_storage.
  destruct (ps !! index) as [p |] eqn:Hp; [| reflexivity].
  cbn [fst snd]. rewrite component_mk. norm_storage.
  destruct (ss !! index) as [s |] eqn:Hs; [| reflexivity].
  cbn [fst snd]. rewrite component_mk. norm_storage.
  destruct (ms !! index) as [m |] eqn:Hm; [| reflexivity].
  assert (Hi : (index < length ms)%nat) by (eapply lookup_lt_Some; eassumption).
  unfold MovementSystem_step, reflect_axis.
  destruct m as [[ox oy]]. cbn [offset x y].
  destruct (crosses_boundary (x (pos p)) (x (size s)) (width (m_size self)))
    as [[|] |]; cbn [Result_bind]; [| | reflexivity].
  - destruct (Int.mul ox (-1)) as [ox' |]; cbn [Result_bind]; [| reflexivity].
    cbn [fst snd]. rewrite component_assign_mk. norm_storage. rewrite Hm.
    destruct (crosses_boundary (y (pos p)) (y (size s)) (height (m_size self)))
      as [[|] |]; cbn [Result_bind offset x y]; [| | reflexivity].
    + destruct (Int.mul oy (-1)) as [oy' |]; cbn [Result_bind]; [| reflexivity].
      cbn [fst snd]. rewrite component_assign_mk. norm_storage.
      rewrite list_lookup_insert_eq by assumption.
      rewrite list_insert_insert_eq.
      cbn [offset x y].
      destruct (Vector2i_add_assign (pos p) {| x := ox'; y := oy' |}); cbn [Result_bind];
        [| reflexivity].
      cbn [fst snd]. rewrite component_assign_mk. norm_storage. rewrite Hp. reflexivity.
    + destruct (Vector2i_add_assign (pos p) {| x := ox'; y := oy |}); cbn [Result_bind];
        [| reflexivity].
      cbn [fst snd]. rewrite component_assign_mk. norm_storage. rewrite Hp. reflexivity.
  - destruct (crosses_boundary (y (pos p)) (y (size s)) (height (m_size self)))
      as [[|] |]; cbn [Result_bind offset x y]; [| | reflexivity].
    + destruct (Int.mul oy (-1)) as [oy' |]; cbn [Result_bind]; [| reflexivity].
      cbn [fst snd]. rewrite component_assign_mk. norm_storage. rewrite Hm.
      cbn [offset x y].
      destruct (Vector2i_add_assign (pos p) {| x := ox; y := oy' |}); cbn [Result_bind];
        [| reflexivity].
      cbn [fst snd]. rewrite component_assign_mk. norm_storage. rewrite Hp. reflexivity.
    + destruct (Vector2i_add_assign (pos p) {| x := ox; y := oy |}); cbn [Result_bind];
        [| reflexivity].
      cbn [fst snd]. rewrite component_assign_mk. norm_storage. rewrite Hp.
      rewrite (list_insert_id ms index _ Hm). reflexivity.
Qed.

End MovementEntity.

(** ** Arithmetic of one step *)

Lemma in_range_representable (z : Z) : Int.in_range z = true <-> representable z.
Proof.
  unfold Int.in_range, representable.
  rewrite andb_true_iff, !Z.leb_le. reflexivity.
Qed.

Lemma checked_Ok (z v : Z) : Int.checked z = Ok v <-> representable z /\ v = z.
Proof.
  unfold Int.checked. rewrite <- in_range_representable.
  destruct (Int.in_range z); split.
  - intros [= <-]. auto.
  - intros [_ ->]. reflexivity.
  - discriminate.
  - intros [[=] _].
  Qed.

Lemma checked_Raise (z : Z) (f : Fault) :
  Int.checked z = Raise f <-> ~ representable z /\ f = SignedOverflow.
Proof.
  unfold Int.checked. rewrite <- in_range_representable.
  destruct (Int.in_range z); split.
  - discriminate.
  - intros [H _]. exfalso. apply H. reflexivity.
  - intros [= <-]. split; [discriminate | reflexivity].
  - intros [_ ->]. reflexivity.
Qed.

Lemma div_2 (z : Z) : Int.div z 2 = Int.checked (z ÷ 2).
Proof. reflexivity. Qed.

Lemma crosses_boundary_Ok (pos size extent : Z) (flip : bool) :
  crosses_boundary pos size extent = Ok flip <->
  flip = box_outside pos size extent /\
  representable (size ÷ 2) /\
  representable (pos + size ÷ 2) /\
  (pos + size ÷ 2 <= extent -> representable (pos - size ÷ 2)).
Proof.
  unfold crosses_boundary, box_outside, Int.add, Int.sub. rewrite div_2.
  destruct (Int.checked (size ÷ 2)) as [h | f] eqn:Eh; cbn [Result_bind].
  2:{ apply checked_Raise in Eh as [Hn _]. split; [discriminate | tauto]. }
  apply checked_Ok in Eh as [Hh ->].
  destruct (Int.checked (pos + size ÷ 2)) as [far | f] eqn:Ef; cbn [Result_bind].
  2:{ apply checked_Raise in Ef as [Hn _]. split; [discriminate | tauto]. }
  apply checked_Ok in Ef as [Hf ->].
  destruct (pos + size ÷ 2 >? extent) eqn:Egt; cbn [orb].
  - apply Z.gtb_lt in Egt. split.
    + intros [= <-]. split; [reflexivity |]. split; [assumption |].
      split; [assumption |]. intros. lia.
    + intros [-> _]. reflexivity.
  - assert (pos + size ÷ 2 <= extent) by (rewrite Z.gtb_ltb in Egt; apply Z.ltb_ge in Egt; lia).
    destruct (Int.checked (pos - size ÷ 2)) as [near | f] eqn:En; cbn [Result_bind].
    + apply checked_Ok in En as [Hn ->]. split.
      * intros [= <-]. auto.
      * intros [-> _]. reflexivity.
    + apply checked_Raise in En as [Hn _]. split; [discriminate | tauto].
Qed.

Lemma reflect_axis_Ok (pos size extent off o : Z) :
  reflect_axis pos size extent off = Ok o <->
  o = reflected pos size extent off /\
  representable (size ÷ 2) /\
  representable (pos + size ÷ 2) /\
  (pos + size ÷ 2 <= extent -> representable (pos - size ÷ 2)) /\
  (box_outside pos size extent = true -> representable (- off)).
Proof.
  unfold reflect_axis, reflected.
  destruct (crosses_boundary pos size extent) as [flip | f] eqn:Ec; cbn [Result_bind].
  - apply crosses_boundary_Ok in Ec as (-> & H1 & H2 & H3).
    destruct (box_outside pos size extent).
    + unfold Int.mul. replace (off * -1) with (- off) by lia.
      rewrite checked_Ok. intuition congruence.
    + split; [intros [= <-]; intuition congruence | intros [-> _]; reflexivity].
  - split; [discriminate |].
    intros (_ & H1 & H2 & H3 & _).
    assert (crosses_boundary pos size extent = Ok (box_outside pos size extent)) as E
      by (apply crosses_boundary_Ok; auto).
    congruence.
Qed.

Lemma MovementSystem_step_Ok (self : MovementSystem) (p : PositionComponent)
    (s : SizeComponent) (m : MovementComponent) (p' : PositionComponent) (m' : MovementComponent) :
  MovementSystem_step self p s m = Ok (p', m') <->
  step_in_range self p s m /\
  x (offset m') = reflected (x (pos p)) (x (size s)) (width (m_size self)) (x (offset m)) /\
  y (offset m') = reflected (y (pos p)) (y (size s)) (height (m_size self)) (y (offset m)) /\
  x (pos p') = x (pos p) + x (offset m') /\
  y (pos p') = y (pos p) + y (offset m').
Proof.
  unfold MovementSystem_step, step_in_range, axis_in_range, Vector2i_add_assign, Int.add.
  destruct p' as [[px' py']], m' as [[ox' oy']]. cbn [pos offset x y].
  destruct (reflect_axis (x (pos p)) (x (size s)) (width (m_size self)) (x (offset m)))
    as [ox | f] eqn:Ex; cbn [Result_bind].
  2:{ split; [discriminate |]. intros [[(H1 & H2 & H3 & H4 & _) _] _].
      assert (reflect_axis (x (pos p)) (x (size s)) (width (m_size self)) (x (offset m)) =
              Ok (reflected (x (pos p)) (x (size s)) (width (m_size self)) (x (offset m)))) as E
        by (apply reflect_axis_Ok; auto).
      congruence. }
  apply reflect_axis_Ok in Ex as (-> & X1 & X2 & X3 & X4).
  destruct (reflect_axis (y (pos p)) (y (size s)) (height (m_size self)) (y (offset m)))
    as [oy | f] eqn:Ey; cbn [Result_bind].
  2:{ split; [discriminate |]. intros [[_ (H1 & H2 & H3 & H4 & _)] _].
      assert (reflect_axis (y (pos p)) (y (size s)) (height (m_size self)) (y (offset m)) =
              Ok (reflected (y (pos p)) (y (size s)) (height (m_size self)) (y (offset m)))) as E
        by (apply reflect_axis_Ok; auto).
      congruence. }
  apply reflect_axis_Ok in Ey as (-> & Y1 & Y2 & Y3 & Y4).
  set (rx := reflected (x (pos p)) _ _ _). set (ry := reflected (y (pos p)) _ _ _).
  destruct (Int.checked (x (pos p) + rx)) as [nx | f] eqn:Ea; cbn [Result_bind].
  2:{ apply checked_Raise in Ea as [Hn _]. split; [discriminate | tauto]. }
  apply checked_Ok in Ea as [A1 ->].
  destruct (Int.checked (y (pos p) + ry)) as [ny | f] eqn:Eb; cbn [Result_bind].
  2:{ apply checked_Raise in Eb as [Hn _]. split; [discriminate | tauto]. }
  apply checked_Ok in Eb as [B1 ->].
  split.
  - intros [= <- <- <- <-].
    repeat match goal with |- _ /\ _ => split end; auto.
  - intros (_ & -> & -> & -> & ->). reflexivity.
Qed.

(** A step faults only by signed overflow. *)
Lemma MovementSystem_step_Raise (self : MovementSystem) (p : PositionComponent)
    (s : SizeComponent) (m : MovementComponent) (f : Fault) :
  MovementSystem_step self p s m = Raise f -> f = SignedOverflow.
Proof.
  unfold MovementSystem_step, reflect_axis, crosses_boundary, Vector2i_add_assign,
    Int.mul, Int.add, Int.sub. rewrite !div_2. unfold Int.checked.
  repeat (match goal with
          | |- context [if ?c then _ else _] => destruct c
          end; cbn [Result_bind]); congruence.
Qed.

Lemma MovementSystem_step_defined (self : MovementSystem) (p : PositionComponent)
    (s : SizeComponent) (m : MovementComponent) :
  (exists r, MovementSystem_step self p s m = Ok r) <-> step_in_range self p s m.
Proof.
  split.
  - intros [[p' m'] H]. apply MovementSystem_step_Ok in H. tauto.
  - intros H.
    exists (mkPositionComponent (mkVector2i
              (x (pos p) + reflected (x (pos p)) (x (size s)) (width (m_size self)) (x (offset m)))
              (y (pos p) + reflected (y (pos p)) (y (size s)) (height (m_size self)) (y (offset m)))),
            mkMovementComponent (mkVector2i
              (reflected (x (pos p)) (x (size s)) (width (m_size self)) (x (offset m)))
              (reflected (y (pos p)) (y (size s)) (height (m_size self)) (y (offset m))))).
    apply MovementSystem_step_Ok. cbn [pos offset x y]. auto.
Qed.

(** ** The whole loop of [MovementSystem::update] *)

Section MovementLoop.

Context {Env : Type}.
Variables (self : MovementSystem) (env : Env).

(** What the loop over [start, start + count) does to a storage in
    constructor form: on success every index in the range holds the
    step of the components it held before and nothing else changed; a
    fault comes from a missing component or a faulting step at an index
    of the range. *)
Lemma MovementSystem_loop_spec (count : nat) :
  forall (start : nat) rs ss ps ms,
  match for_index_from start count (MovementSystem_update_entity self)
          (mk_storage rs ss ps ms, env) with
  | Ok (_, (st', env')) =>
      env' = env /\
      exists ps' ms',
        st' = mk_storage rs ss ps' ms' /\
        length ps' = length ps /\ length ms' = length ms /\
        (forall i, ~ (start <= i < start + count)%nat ->
           ps' !! i = ps !! i /\ ms' !! i = ms !! i) /\
        (forall i, (start <= i < start + count)%nat ->
           exists p s m p' m',
             ps !! i = Some p /\ ss !! i = Some s /\ ms !! i = Some m /\
             MovementSystem_step self p s m = Ok (p', m') /\
             ps' !! i = Some p' /\ ms' !! i = Some m')
  | Raise f =>
      exists i, (start <= i < start + count)%nat /\
        match f with
        | OutOfBounds => ps !! i = None \/ ss !! i = None \/ ms !! i = None
        | _ => exists p s m,
             ps !! i = Some p /\ ss !! i = Some s /\ ms !! i = Some m /\
             MovementSystem_step self p s m = Raise f
        end
  end.
Proof.
  induction count as [| count IH]; intros start rs ss ps ms.
  - cbn. split; [reflexivity |]. exists ps, ms.
    repeat split; try reflexivity. intros i Hi. lia.
  - cbn [for_index_from]. unfold bind at 1.
    rewrite MovementSystem_update_entity_mk.
    destruct (ps !! start) as [p |] eqn:Hp;
      [| exists start; split; [lia | auto]].
    destruct (ss !! start) as [s |] eqn:Hs;
      [| exists start; split; [lia | auto]].
    destruct (ms !! start) as [m |] eqn:Hm;
      [| exists start; split; [lia | auto]].
    destruct (MovementSystem_step self p s m) as [[p' m'] | f] eqn:Hstep.
    2:{ exists start. split; [lia |].
        pose proof (MovementSystem_step_Raise _ _ _ _ _ Hstep) as Hf. subst f.
        exists p, s, m. auto. }
    assert (Hps : (start < length ps)%nat) by (eapply lookup_lt_Some; eassumption).
    assert (Hms : (start < length ms)%nat) by (eapply lookup_lt_Some; eassumption).
    specialize (IH (S start) rs ss (<[start := p']> ps) (<[start := m']> ms)).
    destruct (for_index_from (S start) count (MovementSystem_update_entity self)
                (mk_storage rs ss (<[start := p']> ps) (<[start := m']> ms), env))
      as [[u [st' env']] | f].
    + destruct IH as (-> & ps' & ms' & -> & Hlp & Hlm & Hout & Hin).
      split; [reflexivity |]. exists ps', ms'.
      rewrite length_insert in Hlp. rewrite length_insert in Hlm.
      split; [reflexivity |]. split; [assumption |]. split; [assumption |]. split.
      * intros i Hi. destruct (Hout i) as [E1 E2]; [lia |].
        rewrite E1, E2. rewrite !list_lookup_insert_ne by lia. auto.
      * intros i Hi. destruct (decide (i = start)) as [-> | Hne].
        -- destruct (Hout start) as [E1 E2]; [lia |].
           exists p, s, m, p', m'. rewrite E1, E2.
           rewrite !list_lookup_insert_eq by assumption. auto 10.
        -- destruct (Hin i) as (q & t & n & q' & n' & A1 & A2 & A3 & A4 & A5 & A6); [lia |].
           rewrite list_lookup_insert_ne in A1 by lia.
           rewrite list_lookup_insert_ne in A3 by lia.
           exists q, t, n, q', n'. auto 10.
    + destruct IH as (i & Hi & Hf). exists i. split; [lia |].
      rewrite !list_lookup_insert_ne in Hf by lia. exact Hf.
Qed.

End MovementLoop.

(** ** [RenderSystem::update] *)

Section RenderLoop.

Variables (self : RenderSystem).
Variables (rs : list RenderComponent) (ss : list SizeComponent)
          (ps : list PositionComponent) (ms : list MovementComponent).

Lemma RenderSystem_update_entity_mk (index : nat) (queue : Renderer) :
  RenderSystem_update_entity self index (mk_storage rs ss ps ms, queue) =
  match rs !! index, ss !! index, ps !! index with
  | Some rc, Some sc, Some pc =>
      Ok (tt, (mk_storage rs ss ps ms, (queue ++ [entity_draw self rc sc pc] : Renderer)))
  | _, _, _ => Raise OutOfBounds
  end.
Proof.
  unfold RenderSystem_update_entity, bind, storage_read, env_call, lift.
  cbn [fst snd]. rewrite component_mk. norm_storage.
  destruct (rs !! index) as [rc |]; [| reflexivity].
  cbn [fst snd]. rewrite component_mk. norm_storage.
  destruct (ss !! index) as [sc |]; [| reflexivity].
  cbn [fst snd]. rewrite component_mk. norm_storage.
  destruct (ps !! index) as [pc |]; reflexivity.
Qed.

(** The loop over [start, start + count): the storage is untouched and
    the queue gains one submission per index, in index order; the only
    fault is a missing component. *)
Lemma RenderSystem_loop_spec (count : nat) :
  forall (start : nat) (queue : Renderer),
  match for_index_from start count (RenderSystem_update_entity self)
          (mk_storage rs ss ps ms, queue) with
  | Ok (_, (st', queue')) =>
      st' = mk_storage rs ss ps ms /\
      exists draws,
        queue' = queue ++ draws /\ length draws = count /\
        forall k, (k < count)%nat ->
          exists rc sc pc,
            rs !! (start + k)%nat = Some rc /\ ss !! (start + k)%nat = Some sc /\
            ps !! (start + k)%nat = Some pc /\
            draws !! k = Some (entity_draw self rc sc pc)
  | Raise f =>
      f = OutOfBounds /\
      exists i, (start <= i < start + count)%nat /\
        (rs !! i = None \/ ss !! i = None \/ ps !! i = None)
  end.
Proof.
  induction count as [| count IH]; intros start queue.
  - cbn. split; [reflexivity |]. exists [].
    rewrite app_nil_r. repeat split. intros k Hk. lia.
  - cbn [for_index_from]. unfold bind at 1.
    rewrite RenderSystem_update_entity_mk.
    destruct (rs !! start) as [rc |] eqn:Hr;
      [| split; [reflexivity | exists start; split; [lia | auto]]].
    destruct (ss !! start) as [sc |] eqn:Hs;
      [| split; [reflexivity | exists start; split; [lia | auto]]].
    destruct (ps !! start) as [pc |] eqn:Hp;
      [| split; [reflexivity | exists start; split; [lia | auto]]].
    specialize (IH (S start) (queue ++ [entity_draw self rc sc pc])).
    match goal with
    | |- match ?t with _ => _ end =>
        match type of IH with
        | match ?t' with _ => _ end => change t' with t in IH
        end;
        destruct t as [[u [st' queue']] | f]
    end.
    + destruct IH as (-> & draws & Hq & Hlen & Hdraws). subst queue'.
      split; [reflexivity |].
      exists (entity_draw self rc sc pc :: draws).
      split; [rewrite <- app_assoc; reflexivity |].
      split; [cbn; lia |].
      intros [| k] Hk.
      * rewrite Nat.add_0_r. exists rc, sc, pc. auto.
      * destruct (Hdraws k) as (rc' & sc' & pc' & A1 & A2 & A3 & A4); [lia |].
        replace (start + S k)%nat with (S start + k)%nat by lia.
        exists rc', sc', pc'. auto.
    + destruct IH as (-> & i & Hi & Hnone).
      split; [reflexivity |]. exists i. split; [lia | assumption].
Qed.

End RenderLoop.

(** ** The systems on a well-formed storage *)

Section MovementUpdate.

Context {Env : Type}.
Variables (count : nat) (self : MovementSystem) (env : Env).
Variables (rs : list RenderComponent) (ss : list SizeComponent)
          (ps : list PositionComponent) (ms : list MovementComponent).

Lemma MovementSystem_update_Ok (u : unit) (st' : StorageType) (env' : Env) :
  MovementSystem_update count self (mk_storage rs ss ps ms, env) = Ok (u, (st', env')) ->
  env' = env /\
  exists ps' ms',
    st' = mk_storage rs ss ps' ms' /\
    length ps' = length ps /\ length ms' = length ms /\
    (forall i, (count <= i)%nat -> ps' !! i = ps !! i /\ ms' !! i = ms !! i) /\
    (forall i, (i < count)%nat ->
       exists p s m p' m',
         ps !! i = Some p /\ ss !! i = Some s /\ ms !! i = Some m /\
         MovementSystem_step self p s m = Ok (p', m') /\
         ps' !! i = Some p' /\ ms' !! i = Some m').
Proof.
  intros H. pose proof (MovementSystem_loop_spec self env count 0 rs ss ps ms) as S.
  unfold MovementSystem_update, for_index in H. rewrite H in S.
  destruct S as (-> & ps' & ms' & -> & Hlp & Hlm & Hout & Hin).
  split; [reflexivity |]. exists ps', ms'.
  split; [reflexivity |]. split; [assumption |]. split; [assumption |]. split.
  - intros i Hi. apply Hout. lia.
  - intros i Hi. apply Hin. lia.
Qed.

Lemma MovementSystem_update_Raise (f : Fault) :
  MovementSystem_update count self (mk_storage rs ss ps ms, env) = Raise f ->
  exists i, (i < count)%nat /\
    match f with
    | OutOfBounds => ps !! i = None \/ ss !! i = None \/ ms !! i = None
    | _ => exists p s m,
         ps !! i = Some p /\ ss !! i = Some s /\ ms !! i = Some m /\
         MovementSystem_step self p s m = Raise f
    end.
Proof.
  intros H. pose proof (MovementSystem_loop_spec self env count 0 rs ss ps ms) as S.
  unfold MovementSystem_update, for_index in H. rewrite H in S.
  destruct S as (i & Hi & Hf). exists i. split; [lia | exact Hf].
Qed.

(** The tick is defined exactly when every entity below the population
    count has its three components and its arithmetic stays in range. *)
Lemma MovementSystem_update_defined :
  (exists st', MovementSystem_update count self (mk_storage rs ss ps ms, env) = Ok (tt, (st', env))) <->
  (forall i, (i < count)%nat ->
     exists p s m,
       ps !! i = Some p /\ ss !! i = Some s /\ ms !! i = Some m /\
       step_in_range self p s m).
Proof.
  split.
  - intros [st' H] i Hi.
    apply MovementSystem_update_Ok in H as (_ & ps' & ms' & _ & _ & _ & _ & Hin).
    destruct (Hin i Hi) as (p & s & m & p' & m' & A1 & A2 & A3 & A4 & _).
    exists p, s, m. repeat (split; [assumption |]).
    apply MovementSystem_step_defined. eauto.
  - intros Hall.
    destruct (MovementSystem_update count self (mk_storage rs ss ps ms, env))
      as [[[] [st' env']] | f] eqn:E.
    + exists st'. apply MovementSystem_update_Ok in E as H. destruct H as [-> _].
      reflexivity.
    + exfalso. apply MovementSystem_update_Raise in E as (i & Hi & Hf).
      destruct (Hall i Hi) as (p & s & m & A1 & A2 & A3 & A4).
      apply MovementSystem_step_defined in A4 as [r A4].
      destruct f.
      * destruct Hf as [? | [? | ?]]; congruence.
      * destruct Hf as (p0 & s0 & m0 & B1 & B2 & B3 & B4); congruence.
      * destruct Hf as (p0 & s0 & m0 & B1 & B2 & B3 & B4); congruence.
      * destruct Hf as (p0 & s0 & m0 & B1 & B2 & B3 & B4); congruence.
Qed.

End MovementUpdate.

Section RenderUpdate.

Variables (count : nat) (self : RenderSystem) (queue : Renderer).
Variables (rs : list RenderComponent) (ss : list SizeComponent)
          (ps : list PositionComponent) (ms : list MovementComponent).

Lemma RenderSystem_update_Ok (u : unit) (st' : StorageType) (queue' : Renderer) :
  RenderSystem_update count self (mk_storage rs ss ps ms, queue) = Ok (u, (st', queue')) ->
  st' = mk_storage rs ss ps ms /\
  exists draws,
    queue' = queue ++ draws /\ length draws = count /\
    forall k, (k < count)%nat ->
      exists rc sc pc,
        rs !! k = Some rc /\ ss !! k = Some sc /\ ps !! k = Some pc /\
        draws !! k = Some (entity_draw self rc sc pc).
Proof.
  intros H. pose proof (RenderSystem_loop_spec self rs ss ps ms count 0 queue) as S.
  unfold RenderSystem_update, for_index in H. rewrite H in S. exact S.
Qed.

Lemma RenderSystem_update_Raise (f : Fault) :
  RenderSystem_update count self (mk_storage rs ss ps ms, queue) = Raise f ->
  f = OutOfBounds /\
  exists i, (i < count)%nat /\ (rs !! i = None \/ ss !! i = None \/ ps !! i = None).
Proof.
  intros H. pose proof (RenderSystem_loop_spec self rs ss ps ms count 0 queue) as S.
  unfold RenderSystem_update, for_index in H. rewrite H in S.
  destruct S as (-> & i & Hi & Hn). split; [reflexivity |]. exists i. split; [lia | exact Hn].
Qed.

End RenderUpdate.

(** ** Lengths *)

Lemma container_length_mk (T : ComponentType) rs ss ps ms :
  container_length T (mk_storage rs ss ps ms) = Ok (length (select T rs ss ps ms)).
Proof. unfold container_length. rewrite components_container_mk. reflexivity. Qed.

(** Either domain system keeps the storage well formed and every
    container at its length. *)
Lemma domain_system_lengths (count : nat) (s : SystemPtr Renderer)
    (st st' : StorageType) (queue queue' : Renderer) (u : unit) :
  is_domain_system count s ->
  storage_wf st ->
  SystemPtr_update s (st, queue) = Ok (u, (st', queue')) ->
  storage_wf st' /\ forall T, container_length T st' = container_length T st.
Proof.
  intros Hs Hwf Hrun.
  destruct (storage_wf_mk st Hwf) as (rs & ss & ps & ms & ->).
  destruct Hs as [[self ->] | [self ->]].
  - change (RenderSystem_update count self (mk_storage rs ss ps ms, queue) = Ok (u, (st', queue')))
      in Hrun.
    apply RenderSystem_update_Ok in Hrun as [-> _].
    split; [apply mk_storage_wf | reflexivity].
  - change (MovementSystem_update count self (mk_storage rs ss ps ms, queue) = Ok (u, (st', queue')))
      in Hrun.
    apply MovementSystem_update_Ok in Hrun as (_ & ps' & ms' & -> & Hlp & Hlm & _).
    split; [apply mk_storage_wf |].
    intros T. rewrite !container_length_mk. destruct T; norm_storage; congruence.
Qed.

(** ** The scheduler loop *)

Section Scheduler.

Context {Env : Type}.

(** The loop over the registered systems succeeds exactly when there is
    a chain of states, one more than there are systems, that starts at
    the state the loop is entered in and in which the [k]-th system
    takes the [k]-th state to the next one. *)
Lemma for_each_system_chain (systems : list (SystemPtr Env)) :
  forall (w w' : StorageType * Env),
  for_each_system systems w = Ok (tt, w') <->
  exists states : list (StorageType * Env),
    length states = S (length systems) /\
    states !! O = Some w /\
    states !! length systems = Some w' /\
    forall (k : nat) (s : SystemPtr Env),
      systems !! k = Some s ->
      exists wk wk',
        states !! k = Some wk /\ states !! S k = Some wk' /\
        SystemPtr_update s wk = Ok (tt, wk').
Proof.
  induction systems as [| s rest IH]; intros w w'.
  - cbn. split.
    + intros [= <-]. exists [w]. repeat split. intros k s H. discriminate H.
    + intros (states & _ & H0 & H1 & _). cbn in H1. unfold ret. congruence.
  - cbn [for_each_system]. unfold bind at 1. split.
    + destruct (SystemPtr_update s w) as [[[] w1] | f] eqn:Es; [| discriminate].
      intros Hrest. apply IH in Hrest as (states & Hlen & H0 & Hlast & Hstep).
      exists (w :: states). split; [cbn; lia |]. split; [reflexivity |].
      split; [exact Hlast |].
      intros [| k] s' Hk.
      * injection Hk as <-. exists w, w1. auto.
      * apply (Hstep k s' Hk).
    + intros (states & Hlen & H0 & Hlast & Hstep).
      destruct states as [| w0 states]; [discriminate |].
      injection H0 as ->.
      destruct (Hstep O s eq_refl) as (wk & wk' & A1 & A2 & A3).
      injection A1 as <-. rewrite A3.
      apply IH. exists states. split; [cbn in Hlen; lia |].
      split; [exact A2 |]. split; [exact Hlast |].
      intros k s' Hk. apply (Hstep (S k) s' Hk).
Qed.

Lemma ECS_update_systems (self self' : ECS Env) (env env' : Env) :
  ECS_update self env = Ok (self', env') ->
  m_systems self' = m_systems self /\
  for_each_system (m_systems self) (m_storage self, env) = Ok (tt, (m_storage self', env')).
Proof.
  unfold ECS_update.
  destruct (for_each_system (m_systems self) (m_storage self, env))
    as [[[] [st e]] | f]; [| discriminate].
  intros [= <- <-]. auto.
Qed.

End Scheduler.

(** The scheduler over probe systems logs their identifiers in
    registration order. *)
Lemma for_each_probe (ids : list nat) :
  forall (st : StorageType) (log : list nat),
  for_each_system (map probe ids) (st, log) = Ok (tt, (st, log ++ ids)).
Proof.
  induction ids as [| id ids IH]; intros st log.
  - cbn. rewrite app_nil_r. reflexivity.
  - cbn [map for_each_system]. unfold bind at 1.
    change (SystemPtr_update (probe id) (st, log)) with (Ok (tt, (st, log ++ [id]))).
    cbn iota beta. rewrite IH, <- app_assoc. reflexivity.
Qed.

Lemma ECS_ctor_wf (Env : Type) : storage_wf (m_storage (@ECS_ctor Env)).
Proof. apply mk_storage_wf. Qed.

(** ** Ticks of the application's scheduler *)

Lemma for_each_domain_system (count : nat) (systems : list (SystemPtr Renderer)) :
  Forall (is_domain_system count) systems ->
  forall (st st' : StorageType) (queue queue' : Renderer) (u : unit),
  storage_wf st ->
  for_each_system systems (st, queue) = Ok (u, (st', queue')) ->
  storage_wf st' /\ forall T, container_length T st' = container_length T st.
Proof.
  induction 1 as [| s rest Hs _ IH]; intros st st' queue queue' u Hwf Hrun.
  - injection Hrun as <- <-. auto.
  - cbn [for_each_system] in Hrun. unfold bind at 1 in Hrun.
    destruct (SystemPtr_update s (st, queue)) as [[u1 [st1 queue1]] | f] eqn:Es;
      [| discriminate].
    destruct (domain_system_lengths _ _ _ _ _ _ _ Hs Hwf Es) as [Hwf1 Hlen1].
    destruct (IH _ _ _ _ _ Hwf1 Hrun) as [Hwf' Hlen'].
    split; [assumption |]. intros T. rewrite Hlen'. apply Hlen1.
Qed.

Lemma ECS_update_lengths (count : nat) (self self' : ECS Renderer) (queue queue' : Renderer) :
  Forall (is_domain_system count) (m_systems self) ->
  storage_wf (m_storage self) ->
  ECS_update self queue = Ok (self', queue') ->
  m_systems self' = m_systems self /\
  storage_wf (m_storage self') /\
  forall T, container_length T (m_storage self') = container_length T (m_storage self).
Proof.
  intros Hs Hwf Hrun. apply ECS_update_systems in Hrun as [Hsys Hrun].
  split; [assumption |].
  eapply for_each_domain_system; eassumption.
Qed.

Lemma ECS_add_component_mk {Env : Type} (T : ComponentType) (v : component_t T)
    rs ss ps ms (systems : list (SystemPtr Env)) :
  ECS_add_component T v (mkECS (mk_storage rs ss ps ms) systems) =
  Ok (mkECS (replace T (select T rs ss ps ms ++ [v]) rs ss ps ms) systems).
Proof.
  unfold ECS_add_component. cbn [m_storage m_systems].
  rewrite add_component_mk. reflexivity.
Qed.

Lemma replace_wf (T : ComponentType) (c : StorageContainer T) rs ss ps ms :
  storage_wf (replace T c rs ss ps ms).
Proof. destruct T; apply mk_storage_wf. Qed.

Lemma container_length_replace (T U : ComponentType) (c : StorageContainer T) rs ss ps ms :
  container_length U (replace T c rs ss ps ms) =
  Ok (if decide (U = T) then length c else length (select U rs ss ps ms)).
Proof.
  unfold container_length.
  destruct (decide (U = T)) as [-> | ne].
  - rewrite select_replace_same. reflexivity.
  - rewrite select_replace_other by assumption. reflexivity.
Qed.

(** One call keeps the invariant of the scheduler and changes the length
    of a container only when it is an [add_component] of its type. *)
Lemma ECS_call_lengths (count : nat) (c : Call) (self self' : ECS Renderer)
    (queue queue' : Renderer) :
  Forall (is_domain_system count) (m_systems self) ->
  storage_wf (m_storage self) ->
  ECS_call count c (self, queue) = Ok (self', queue') ->
  Forall (is_domain_system count) (m_systems self') /\
  storage_wf (m_storage self') /\
  forall T len,
    container_length T (m_storage self) = Ok len ->
    container_length T (m_storage self') = Ok (len + (if is_add T c then 1 else 0))%nat.
Proof.
  intros Hs Hwf Hrun. destruct c as [U v | rsys | msys |]; cbn [ECS_call fst snd is_add] in *.
  - destruct self as [st systems]. cbn [m_storage m_systems] in *.
    destruct (storage_wf_mk st Hwf) as (rs & ss & ps & ms & ->).
    rewrite ECS_add_component_mk in Hrun. injection Hrun as <- <-.
    cbn [m_storage m_systems].
    split; [assumption |]. split; [apply replace_wf |].
    intros T len. rewrite container_length_mk, container_length_replace.
    intros [= <-]. f_equal.
    destruct (decide (T = U)) as [-> | ne].
    + rewrite bool_decide_eq_true_2 by reflexivity. rewrite length_app. reflexivity.
    + rewrite bool_decide_eq_false_2 by congruence. lia.
  - injection Hrun as <- <-. cbn [ECS_add_system m_storage m_systems].
    split; [| split; [assumption |]].
    + apply Forall_app. split; [assumption |]. constructor; [| constructor].
      left. eexists. reflexivity.
    + intros T len ->. f_equal. lia.
  - injection Hrun as <- <-. cbn [ECS_add_system m_storage m_systems].
    split; [| split; [assumption |]].
    + apply Forall_app. split; [assumption |]. constructor; [| constructor].
      right. eexists. reflexivity.
    + intros T len ->. f_equal. lia.
  - destruct (ECS_update_lengths _ _ _ _ _ Hs Hwf Hrun) as (Hsys & Hwf' & Hlen).
    split; [rewrite Hsys; assumption |]. split; [assumption |].
    intros T len HT. rewrite Hlen, HT. f_equal. lia.
Qed.

Lemma ECS_calls_lengths (count : nat) (cs : list Call) :
  forall (self self' : ECS Renderer) (queue queue' : Renderer),
  Forall (is_domain_system count) (m_systems self) ->
  storage_wf (m_storage self) ->
  ECS_calls count cs (self, queue) = Ok (self', queue') ->
  Forall (is_domain_system count) (m_systems self') /\
  storage_wf (m_storage self') /\
  forall T len,
    container_length T (m_storage self) = Ok len ->
    container_length T (m_storage self') = Ok (len + count_adds T cs)%nat.
Proof.
  induction cs as [| c cs IH]; intros self self' queue queue' Hs Hwf Hrun.
  - injection Hrun as <- <-. split; [assumption |]. split; [assumption |].
    intros T len ->. unfold count_adds. cbn. f_equal. lia.
  - cbn [ECS_calls] in Hrun.
    destruct (ECS_call count c (self, queue)) as [[self1 queue1] | f] eqn:Ec;
      [| discriminate].
    cbn [Result_bind] in Hrun.
    destruct (ECS_call_lengths _ _ _ _ _ _ Hs Hwf Ec) as (Hs1 & Hwf1 & Hlen1).
    destruct (IH _ _ _ _ Hs1 Hwf1 Hrun) as (Hs' & Hwf' & Hlen').
    split; [assumption |]. split; [assumption |].
    intros T len HT. rewrite (Hlen' T _ (Hlen1 T len HT)). f_equal.
    unfold count_adds. cbn [List.filter]. destruct (is_add T c); cbn [length]; lia.
Qed.

Lemma ECS_update_n_lengths (count : nat) (ticks : nat) :
  forall (self self' : ECS Renderer) (queue queue' : Renderer),
  Forall (is_domain_system count) (m_systems self) ->
  storage_wf (m_storage self) ->
  ECS_update_n ticks self queue = Ok (self', queue') ->
  m_systems self' = m_systems self /\
  storage_wf (m_storage self') /\
  forall T, container_length T (m_storage self') = container_length T (m_storage self).
Proof.
  induction ticks as [| ticks IH]; intros self self' queue queue' Hs Hwf Hrun.
  - injection Hrun as <- <-. auto.
  - cbn [ECS_update_n] in Hrun.
    destruct (ECS_update self queue) as [[self1 queue1] | f] eqn:Eu; [| discriminate].
    destruct (ECS_update_lengths _ _ _ _ _ Hs Hwf Eu) as (Hsys1 & Hwf1 & Hlen1).
    rewrite <- Hsys1 in Hs.
    destruct (IH _ _ _ _ Hs Hwf1 Hrun) as (Hsys' & Hwf' & Hlen').
    split; [congruence |]. split; [assumption |].
    intros T. rewrite Hlen'. apply Hlen1.
Qed.

(** ** Reading a component of a well-formed storage *)

Lemma component_Ok (T : ComponentType) (index : nat) (v : component_t T) rs ss ps ms :
  component T index (mk_storage rs ss ps ms) = Ok v <->
  select T rs ss ps ms !! index = Some v.
Proof.
  rewrite component_mk.
  destruct (select T rs ss ps ms !! index); split; congruence.
Qed.

Lemma component_Raise (T : ComponentType) (index : nat) (f : Fault) rs ss ps ms :
  component T index (mk_storage rs ss ps ms) = Raise f <->
  select T rs ss ps ms !! index = None /\ f = OutOfBounds.
Proof.
  rewrite component_mk.
  destruct (select T rs ss ps ms !! index); split;
    [discriminate | intros [[=] _] | intros [= <-]; auto | intros [_ ->]; reflexivity].
Qed.

(** What one tick of [MovementSystem] does to the entity at [index], in
    terms of the components read before and after it. *)
Lemma MovementSystem_update_entity_result {Env : Type} (count : nat) (self : MovementSystem)
    (env env' : Env) (st st' : StorageType) (index : nat)
    (p : PositionComponent) (s : SizeComponent) (m : MovementComponent) :
  storage_wf st ->
  MovementSystem_update count self (st, env) = Ok (tt, (st', env')) ->
  (index < count)%nat ->
  component TPosition index st = Ok p ->
  component TSize index st = Ok s ->
  component TMovement index st = Ok m ->
  storage_wf st' /\
  env' = env /\
  exists p' m',
    component TPosition index st' = Ok p' /\
    component TMovement index st' = Ok m' /\
    component TSize index st' = Ok s /\
    MovementSystem_step self p s m = Ok (p', m').
Proof.
  intros Hwf Hrun Hi Hp Hs Hm.
  destruct (storage_wf_mk st Hwf) as (rs & ss & ps & ms & ->).
  apply MovementSystem_update_Ok in Hrun as (-> & ps' & ms' & -> & _ & _ & _ & Hin).
  split; [apply mk_storage_wf |]. split; [reflexivity |].
  destruct (Hin index Hi) as (p0 & s0 & m0 & p' & m' & A1 & A2 & A3 & A4 & A5 & A6).
  apply component_Ok in Hp, Hs, Hm.
  unfold StorageContainer in Hp, Hs, Hm. cbn [select component_t] in Hp, Hs, Hm.
  assert (p0 = p) by congruence. assert (s0 = s) by congruence.
  assert (m0 = m) by congruence. subst p0 s0 m0.
  exists p', m'.
  split; [apply component_Ok; exact A5 |].
  split; [apply component_Ok; exact A6 |].
  split; [apply component_Ok; exact A2 |].
  exact A4.
Qed.

(** Close a goal [storage_wf st] for a storage given by its four slots. *)
Ltac solve_storage_wf :=
  split; [reflexivity | intros T; destruct T; eexists; reflexivity].

(** Close a goal [step_in_range self p s m] on concrete components. *)
Ltac solve_step_in_range :=
  unfold step_in_range, axis_in_range;
  repeat match goal with
         | |- _ /\ _ => split
         | |- _ -> _ => intros _
         end;
  apply in_range_representable; vm_compute; reflexivity.

(** * The storage registry *)

(** C6. For every value [v] of a declared component type [T],
    [add_component(v)] succeeds on a scheduler built by the constructor and
    its operations: the container of [T] becomes the old one with [v]
    appended (one element longer, [v] last), the container of every other
    declared type is the same, and so is the list of registered systems. *)
Theorem add_component_appends {Env : Type} (T : ComponentType) (v : component_t T)
    (self : ECS Env) :
  storage_wf (m_storage self) ->
  exists (self' : ECS Env) (c : StorageContainer T),
    ECS_add_component T v self = Ok self' /\
    components_container T (m_storage self) = Ok c /\
    components_container T (m_storage self') = Ok (c ++ [v]) /\
    length (c ++ [v]) = S (length c) /\
    last (c ++ [v]) = Some v /\
    (forall U : ComponentType, U <> T ->
       components_container U (m_storage self') = components_container U (m_storage self)) /\
    m_systems self' = m_systems self /\
    storage_wf (m_storage self').
Proof.
  intros Hwf. destruct self as [st systems]. cbn [m_storage m_systems] in *.
  destruct (storage_wf_mk st Hwf) as (rs & ss & ps & ms & ->).
  exists (mkECS (replace T (select T rs ss ps ms ++ [v]) rs ss ps ms) systems),
         (select T rs ss ps ms).
  cbn [m_storage m_systems].
  split; [apply ECS_add_component_mk |].
  split; [apply components_container_mk |].
  split; [apply select_replace_same |].
  split; [rewrite length_app; cbn; lia |].
  split; [apply last_snoc |].
  split; [| split; [reflexivity | apply replace_wf]].
  intros U ne. rewrite select_replace_other by assumption.
  symmetry. apply components_container_mk.
Qed.

Lemma add_component_appends_witness :
  exists (self' : ECS unit) (c : StorageContainer TSize),
    ECS_add_component TSize (mkSizeComponent (mkVector2i 15 15))
      (mkECS (mk_storage [] [mkSizeComponent (mkVector2i 10 20)] [] []) []) = Ok self' /\
    components_container TSize (mk_storage [] [mkSizeComponent (mkVector2i 10 20)] [] []) = Ok c /\
    components_container TSize (m_storage self') = Ok (c ++ [mkSizeComponent (mkVector2i 15 15)]) /\
    length (c ++ [mkSizeComponent (mkVector2i 15 15)]) = S (length c) /\
    last (c ++ [mkSizeComponent (mkVector2i 15 15)]) = Some (mkSizeComponent (mkVector2i 15 15)) /\
    (forall U : ComponentType, U <> TSize ->
       components_container U (m_storage self') =
       components_container U (mk_storage [] [mkSizeComponent (mkVector2i 10 20)] [] [])) /\
    m_systems self' = [] /\
    storage_wf (m_storage self').
Proof.
  apply (add_component_appends TSize (mkSizeComponent (mkVector2i 15 15))
           (mkECS (mk_storage [] [mkSizeComponent (mkVector2i 10 20)] [] []) [])).
  cbn [m_storage]. split; [reflexivity |].
  intros T. destruct T; eexists; reflexivity.
Defined.

(** C10. On a scheduler built by the constructor and its operations,
    appending [a] of type [A] and then [b] of a different type [B] gives
    the same scheduler state as appending [b] and then [a]; two different
    values of one type appended in the two orders give different states. *)
Theorem add_component_order {Env : Type} (self : ECS Env) :
  storage_wf (m_storage self) ->
  (forall (A B : ComponentType) (a : component_t A) (b : component_t B),
     A <> B ->
     exists self' : ECS Env,
       Result_bind (ECS_add_component A a self) (ECS_add_component B b) = Ok self' /\
       Result_bind (ECS_add_component B b self) (ECS_add_component A a) = Ok self') /\
  (forall (A : ComponentType) (a a' : component_t A),
     a <> a' ->
     Result_bind (ECS_add_component A a self) (ECS_add_component A a') <>
     Result_bind (ECS_add_component A a' self) (ECS_add_component A a)).
Proof.
  intros Hwf. destruct self as [st systems]. cbn [m_storage] in Hwf.
  destruct (storage_wf_mk st Hwf) as (rs & ss & ps & ms & ->).
  split.
  - intros A B a b ne.
    rewrite !ECS_add_component_mk. cbn [Result_bind].
    destruct A, B; try congruence; cbn [replace select];
      rewrite !ECS_add_component_mk; cbn [replace select]; eexists; split; reflexivity.
  - intros A a a' ne.
    rewrite !ECS_add_component_mk. cbn [Result_bind].
    destruct A; cbn [replace select]; rewrite !ECS_add_component_mk; cbn [replace select];
      intros [= H]; apply (inj_pair2_eq_dec _ ComponentType_eq_dec) in H;
      rewrite <- !app_assoc in H; apply app_inv_head in H; cbn in H; congruence.
Qed.

Lemma add_component_order_witness :
  (forall (A B : ComponentType) (a : component_t A) (b : component_t B),
     A <> B ->
     exists self' : ECS unit,
       Result_bind (ECS_add_component A a ECS_ctor) (ECS_add_component B b) = Ok self' /\
       Result_bind (ECS_add_component B b ECS_ctor) (ECS_add_component A a) = Ok self') /\
  (forall (A : ComponentType) (a a' : component_t A),
     a <> a' ->
     Result_bind (ECS_add_component A a (@ECS_ctor unit)) (ECS_add_component A a') <>
     Result_bind (ECS_add_component A a' ECS_ctor) (ECS_add_component A a)).
Proof.
  apply (add_component_order (@ECS_ctor unit)).
  split; [reflexivity |].
  intros T. destruct T; eexists; reflexivity.
Defined.

(** * The scheduler *)

(** C2. One [ECS::update] succeeds exactly when the registered systems can
    be run one after the other: there is a sequence of states, one per
    system plus the final one, that starts at the state before the tick,
    ends at the state after it, and in which the [k]-th registered system's
    [update()] takes the [k]-th state to the next. Every system is thus
    invoked once, in registration order, each on the state its predecessor
    left, and none is skipped; the list of systems is unchanged. For two
    systems [[A; B]] the tick is [A]'s update followed by [B]'s on the
    state [A] returned, and a fault of either is the fault of the tick.
    With systems that each append their identifier to a shared log, one
    tick extends the log by the identifiers in registration order, each
    once. *)
Theorem ECS_update_runs_systems_in_order {Env : Type} :
  (forall (self self' : ECS Env) (env env' : Env),
     ECS_update self env = Ok (self', env') <->
     m_systems self' = m_systems self /\
     exists states : list (StorageType * Env),
       length states = S (length (m_systems self)) /\
       states !! O = Some (m_storage self, env) /\
       states !! length (m_systems self) = Some (m_storage self', env') /\
       forall (k : nat) (s : SystemPtr Env),
         m_systems self !! k = Some s ->
         exists wk wk',
           states !! k = Some wk /\ states !! S k = Some wk' /\
           SystemPtr_update s wk = Ok (tt, wk')) /\
  (forall (A B : SystemPtr Env) (st : StorageType) (env : Env),
     ECS_update (mkECS st [A; B]) env =
     match SystemPtr_update A (st, env) with
     | Ok (_, after_A) =>
         match SystemPtr_update B after_A with
         | Ok (_, (st', env')) => Ok (mkECS st' [A; B], env')
         | Raise f => Raise f
         end
     | Raise f => Raise f
     end) /\
  (forall (ids : list nat) (st : StorageType) (log : list nat),
     ECS_update (mkECS st (map probe ids)) log =
     Ok (mkECS st (map probe ids), log ++ ids)).
Proof.
  split; [| split].
  - intros self self' env env'. split.
    + intros H. apply ECS_update_systems in H as [Hsys Hrun].
      split; [assumption |]. apply for_each_system_chain. exact Hrun.
    + intros [Hsys Hchain]. apply for_each_system_chain in Hchain.
      unfold ECS_update. rewrite Hchain.
      destruct self' as [st' systems']. cbn [m_storage m_systems] in *.
      congruence.
  - intros A B st env. unfold ECS_update. cbn [m_systems m_storage for_each_system].
    unfold bind, ret.
    destruct (SystemPtr_update A (st, env)) as [[[] w1] | f]; [| reflexivity].
    destruct (SystemPtr_update B w1) as [[[] [st' env']] | f]; reflexivity.
  - intros ids st log. unfold ECS_update. cbn [m_systems m_storage].
    rewrite for_each_probe. reflexivity.
Qed.

(** * MovementSystem *)

(** C1. On a storage built by the constructor and its operations, one
    [MovementSystem::update()] is defined exactly when every entity below
    the population count has its position, size and offset and the [int]
    arithmetic of its step stays in range. When it is, for every entity
    index and on each axis independently: the offset is negated if the
    position before the tick plus half the size exceeds the extent of the
    domain or the position minus half the size is below zero, and is kept
    otherwise; the position after the tick is the position before it plus
    that new offset, added once. *)
Theorem MovementSystem_update_reflects_then_moves {Env : Type} (count : nat)
    (self : MovementSystem) (env : Env) (st : StorageType) :
  storage_wf st ->
  ((exists st', MovementSystem_update count self (st, env) = Ok (tt, (st', env))) <->
   (forall j, (j < count)%nat ->
      exists p s m,
        component TPosition j st = Ok p /\ component TSize j st = Ok s /\
        component TMovement j st = Ok m /\ step_in_range self p s m)) /\
  (forall (st' : StorageType) (env' : Env) (index : nat)
          (p : PositionComponent) (s : SizeComponent) (m : MovementComponent),
     MovementSystem_update count self (st, env) = Ok (tt, (st', env')) ->
     (index < count)%nat ->
     component TPosition index st = Ok p ->
     component TSize index st = Ok s ->
     component TMovement index st = Ok m ->
     exists p' m',
       component TPosition index st' = Ok p' /\
       component TMovement index st' = Ok m' /\
       x (offset m') =
         (if box_outside (x (pos p)) (x (size s)) (width (m_size self))
          then - x (offset m) else x (offset m)) /\
       y (offset m') =
         (if box_outside (y (pos p)) (y (size s)) (height (m_size self))
          then - y (offset m) else y (offset m)) /\
       x (pos p') = x (pos p) + x (offset m') /\
       y (pos p') = y (pos p) + y (offset m')).
Proof.
  intros Hwf. split.
  - destruct (storage_wf_mk st Hwf) as (rs & ss & ps & ms & ->).
    rewrite MovementSystem_update_defined.
    split; intros H j Hj; destruct (H j Hj) as (p & s & m & A1 & A2 & A3 & A4);
      exists p, s, m.
    + repeat (split; [apply component_Ok; assumption |]). assumption.
    + apply component_Ok in A1, A2, A3. auto.
  - intros st' env' index p s m Hrun Hi Hp Hs Hm.
    destruct (MovementSystem_update_entity_result _ _ _ _ _ _ _ _ _ _ Hwf Hrun Hi Hp Hs Hm)
      as (_ & _ & p' & m' & B1 & B2 & _ & Hstep).
    apply MovementSystem_step_Ok in Hstep as (_ & C1 & C2 & C3 & C4).
    exists p', m'. unfold reflected in C1, C2. auto 10.
Qed.

Lemma MovementSystem_update_reflects_then_moves_witness :
  (exists st', MovementSystem_update 2 window_domain (sample_storage, tt) = Ok (tt, (st', tt))) /\
  exists p' m',
    component TPosition 0 sample_storage_moved = Ok p' /\
    component TMovement 0 sample_storage_moved = Ok m' /\
    x (offset m') = (if box_outside 0 2 800 then - -5 else -5) /\
    y (offset m') = (if box_outside 0 2 600 then - -5 else -5) /\
    x (pos p') = 0 + x (offset m') /\
    y (pos p') = 0 + y (offset m').
Proof.
  destruct (MovementSystem_update_reflects_then_moves 2 window_domain tt sample_storage)
    as [Hdefined Hresult].
  - solve_storage_wf.
  - split.
    + apply Hdefined. intros j Hj.
      destruct j as [| [| j]]; [| | lia].
      * exists (mkPositionComponent (mkVector2i 0 0)), (mkSizeComponent (mkVector2i 2 2)),
          (mkMovementComponent (mkVector2i (-5) (-5))).
        repeat (split; [reflexivity |]). solve_step_in_range.
      * exists (mkPositionComponent (mkVector2i 150 150)), (mkSizeComponent (mkVector2i 14 18)),
          (mkMovementComponent (mkVector2i 5 (-3))).
        repeat (split; [reflexivity |]). solve_step_in_range.
    + apply (Hresult sample_storage_moved tt 0%nat
               (mkPositionComponent (mkVector2i 0 0)) (mkSizeComponent (mkVector2i 2 2))
               (mkMovementComponent (mkVector2i (-5) (-5)))).
      * reflexivity.
      * lia.
      * reflexivity.
      * reflexivity.
      * reflexivity.
Defined.

(** C4. An entity at [(795, 300)] with half-extent [(2, 2)] and offset
    [(50, 0)] in the [800 x 600] domain: the reflection condition holds on
    neither axis (the far edge before the tick is [797], not past [800]);
    a completed tick leaves its offset [(50, 0)] and sets its position to
    [(845, 300)], past the domain's width, with nothing clamping it; and
    when it is the whole population the tick completes with exactly that
    change. *)
Theorem tunneling_entity_leaves_domain (sc : SizeComponent) :
  x (size sc) ÷ 2 = 2 ->
  y (size sc) ÷ 2 = 2 ->
  let p := mkPositionComponent (mkVector2i 795 300) in
  let m := mkMovementComponent (mkVector2i 50 0) in
  let p' := mkPositionComponent (mkVector2i 845 300) in
  (box_outside 795 (x (size sc)) (width (m_size window_domain)) = false /\
   box_outside 300 (y (size sc)) (height (m_size window_domain)) = false /\
   795 + x (size sc) ÷ 2 = 797 /\
   x (pos p') > width (m_size window_domain)) /\
  (forall (Env : Type) (count : nat) (env env' : Env) (st st' : StorageType) (index : nat),
     storage_wf st ->
     (index < count)%nat ->
     component TPosition index st = Ok p ->
     component TSize index st = Ok sc ->
     component TMovement index st = Ok m ->
     MovementSystem_update count window_domain (st, env) = Ok (tt, (st', env')) ->
     component TPosition index st' = Ok p' /\
     component TMovement index st' = Ok m) /\
  (forall (Env : Type) (env : Env) (rc : RenderComponent),
     MovementSystem_update 1 window_domain (mk_storage [rc] [sc] [p] [m], env) =
     Ok (tt, (mk_storage [rc] [sc] [p'] [m], env))).
Proof.
  intros Hx Hy p m p'.
  assert (Bx : box_outside 795 (x (size sc)) 800 = false)
    by (unfold box_outside; rewrite Hx; reflexivity).
  assert (By : box_outside 300 (y (size sc)) 600 = false)
    by (unfold box_outside; rewrite Hy; reflexivity).
  assert (Hstep : MovementSystem_step window_domain p sc m = Ok (p', m)).
  { apply MovementSystem_step_Ok.
    unfold step_in_range, axis_in_range, reflected.
    cbn [window_domain m_size width height pos offset x y p m p'].
    rewrite Bx, By, Hx, Hy.
    unfold representable, Int.INT_MIN, Int.INT_MAX.
    repeat match goal with |- _ /\ _ => split end; intros; (discriminate || lia). }
  split; [| split].
  - cbn [window_domain m_size width height pos x p']. rewrite Hx.
    repeat split; auto; lia.
  - intros Env count env env' st st' index Hwf Hi Hp Hs Hm Hrun.
    destruct (MovementSystem_update_entity_result _ _ _ _ _ _ _ _ _ _ Hwf Hrun Hi Hp Hs Hm)
      as (_ & _ & q & n & Hq & Hn & _ & Hstep').
    rewrite Hstep in Hstep'. injection Hstep' as <- <-. auto.
  - intros Env env rc.
    unfold MovementSystem_update, for_index. cbn [for_index_from]. unfold bind at 1.
    rewrite MovementSystem_update_entity_mk. cbn [lookup list_lookup].
    rewrite Hstep. reflexivity.
Qed.

Lemma tunneling_entity_leaves_domain_witness :
  let sc := mkSizeComponent (mkVector2i 5 4) in
  let p := mkPositionComponent (mkVector2i 795 300) in
  let m := mkMovementComponent (mkVector2i 50 0) in
  let p' := mkPositionComponent (mkVector2i 845 300) in
  (box_outside 795 5 800 = false /\
   box_outside 300 4 600 = false /\
   795 + 5 ÷ 2 = 797 /\
   845 > 800) /\
  (forall (Env : Type) (count : nat) (env env' : Env) (st st' : StorageType) (index : nat),
     storage_wf st ->
     (index < count)%nat ->
     component TPosition index st = Ok p ->
     component TSize index st = Ok sc ->
     component TMovement index st = Ok m ->
     MovementSystem_update count window_domain (st, env) = Ok (tt, (st', env')) ->
     component TPosition index st' = Ok p' /\
     component TMovement index st' = Ok m) /\
  (forall (Env : Type) (env : Env) (rc : RenderComponent),
     MovementSystem_update 1 window_domain (mk_storage [rc] [sc] [p] [m], env) =
     Ok (tt, (mk_storage [rc] [sc] [p'] [m], env))).
Proof.
  apply (tunneling_entity_leaves_domain (mkSizeComponent (mkVector2i 5 4))).
  - reflexivity.
  - reflexivity.
Defined.

(** C8. On a storage built by the constructor and its operations, a
    [MovementSystem::update()] that completes leaves the containers of
    [RenderComponent] and [SizeComponent] exactly as they were (it writes
    only positions and offsets, and makes no call on the environment); a
    [RenderSystem::update()] that completes leaves the whole storage as it
    was. *)
Theorem systems_frame (count : nat) (st : StorageType) :
  storage_wf st ->
  (forall (Env : Type) (self : MovementSystem) (env env' : Env) (st' : StorageType),
     MovementSystem_update count self (st, env) = Ok (tt, (st', env')) ->
     env' = env /\
     exists (rs : list RenderComponent) (ss : list SizeComponent),
       components_container TRender st = Ok rs /\
       components_container TRender st' = Ok rs /\
       components_container TSize st = Ok ss /\
       components_container TSize st' = Ok ss) /\
  (forall (self : RenderSystem) (queue queue' : Renderer) (st' : StorageType),
     RenderSystem_update count self (st, queue) = Ok (tt, (st', queue')) ->
     st' = st).
Proof.
  intros Hwf. destruct (storage_wf_mk st Hwf) as (rs & ss & ps & ms & ->). split.
  - intros Env self env env' st' Hrun.
    apply MovementSystem_update_Ok in Hrun as (-> & ps' & ms' & -> & _).
    split; [reflexivity |]. exists rs, ss.
    rewrite !components_container_mk. auto.
  - intros self queue queue' st' Hrun.
    apply RenderSystem_update_Ok in Hrun as [-> _]. reflexivity.
Qed.

Lemma systems_frame_witness :
  (tt = tt /\
   exists (rs : list RenderComponent) (ss : list SizeComponent),
     components_container TRender sample_storage = Ok rs /\
     components_container TRender sample_storage_moved = Ok rs /\
     components_container TSize sample_storage = Ok ss /\
     components_container TSize sample_storage_moved = Ok ss) /\
  sample_storage = sample_storage.
Proof.
  destruct (systems_frame 2 sample_storage) as [Hmove Hrender].
  - solve_storage_wf.
  - split.
    + apply (Hmove unit window_domain tt tt sample_storage_moved). reflexivity.
    + apply (Hrender sample_render_system []
               [entity_draw sample_render_system (mkRenderComponent sample_color)
                  (mkSizeComponent (mkVector2i 2 2)) (mkPositionComponent (mkVector2i 0 0));
                entity_draw sample_render_system (mkRenderComponent sample_color)
                  (mkSizeComponent (mkVector2i 14 18))
                  (mkPositionComponent (mkVector2i 150 150))]
               sample_storage).
      reflexivity.
Defined.

(** C9. The reflection test looks at position and size only. For an
    entity whose box is across a boundary of an axis while its offset on
    that axis points back into the domain, a completed tick negates the
    offset, so that it points outward, and moves the position further
    out: below, when the near edge was under zero and the offset positive;
    above, when the far edge was past the extent and the offset negative.
    When the box is across a boundary of the same axis before each of two
    consecutive completed ticks, the offset on that axis after the second
    tick is the one before the first. *)
Theorem reflection_ignores_offset_direction {Env : Type} (count : nat)
    (self : MovementSystem) (env env1 : Env) (st st1 : StorageType) (index : nat)
    (p : PositionComponent) (s : SizeComponent) (m : MovementComponent) :
  storage_wf st ->
  (index < count)%nat ->
  component TPosition index st = Ok p ->
  component TSize index st = Ok s ->
  component TMovement index st = Ok m ->
  MovementSystem_update count self (st, env) = Ok (tt, (st1, env1)) ->
  exists p1 m1,
    component TPosition index st1 = Ok p1 /\
    component TSize index st1 = Ok s /\
    component TMovement index st1 = Ok m1 /\
    (x (pos p) - x (size s) ÷ 2 < 0 -> 0 < x (offset m) ->
       x (offset m1) = - x (offset m) /\ x (offset m1) < 0 /\ x (pos p1) < x (pos p)) /\
    (x (pos p) + x (size s) ÷ 2 > width (m_size self) -> x (offset m) < 0 ->
       x (offset m1) = - x (offset m) /\ 0 < x (offset m1) /\ x (pos p) < x (pos p1)) /\
    (y (pos p) - y (size s) ÷ 2 < 0 -> 0 < y (offset m) ->
       y (offset m1) = - y (offset m) /\ y (offset m1) < 0 /\ y (pos p1) < y (pos p)) /\
    (y (pos p) + y (size s) ÷ 2 > height (m_size self) -> y (offset m) < 0 ->
       y (offset m1) = - y (offset m) /\ 0 < y (offset m1) /\ y (pos p) < y (pos p1)) /\
    (forall (st2 : StorageType) (env2 : Env),
       MovementSystem_update count self (st1, env1) = Ok (tt, (st2, env2)) ->
       exists m2,
         component TMovement index st2 = Ok m2 /\
         (box_outside (x (pos p)) (x (size s)) (width (m_size self)) = true ->
          box_outside (x (pos p1)) (x (size s)) (width (m_size self)) = true ->
          x (offset m2) = x (offset m)) /\
         (box_outside (y (pos p)) (y (size s)) (height (m_size self)) = true ->
          box_outside (y (pos p1)) (y (size s)) (height (m_size self)) = true ->
          y (offset m2) = y (offset m))).
Proof.
  intros Hwf Hi Hp Hs Hm Hrun.
  destruct (MovementSystem_update_entity_result _ _ _ _ _ _ _ _ _ _ Hwf Hrun Hi Hp Hs Hm)
    as (Hwf1 & _ & p1 & m1 & Hp1 & Hm1 & Hs1 & Hstep).
  apply MovementSystem_step_Ok in Hstep as (_ & Ox & Oy & Px & Py).
  exists p1, m1. repeat (split; [assumption |]).
  unfold reflected, box_outside in Ox, Oy.
  split; [| split; [| split; [| split]]].
  - intros Hnear Hoff.
    replace (x (pos p) - x (size s) ÷ 2 <? 0) with true in Ox by (symmetry; apply Z.ltb_lt; lia).
    rewrite orb_true_r in Ox. lia.
  - intros Hfar Hoff.
    replace (x (pos p) + x (size s) ÷ 2 >? width (m_size self)) with true in Ox
      by (symmetry; apply Z.gtb_lt; lia).
    cbn [orb] in Ox. lia.
  - intros Hnear Hoff.
    replace (y (pos p) - y (size s) ÷ 2 <? 0) with true in Oy by (symmetry; apply Z.ltb_lt; lia).
    rewrite orb_true_r in Oy. lia.
  - intros Hfar Hoff.
    replace (y (pos p) + y (size s) ÷ 2 >? height (m_size self)) with true in Oy
      by (symmetry; apply Z.gtb_lt; lia).
    cbn [orb] in Oy. lia.
  - intros st2 env2 Hrun2.
    destruct (MovementSystem_update_entity_result _ _ _ _ _ _ _ _ _ _ Hwf1 Hrun2 Hi Hp1 Hs1 Hm1)
      as (_ & _ & p2 & m2 & _ & Hm2 & _ & Hstep2).
    apply MovementSystem_step_Ok in Hstep2 as (_ & Ox2 & Oy2 & _ & _).
    exists m2. split; [assumption |].
    unfold reflected in Ox2, Oy2. fold (box_outside (x (pos p)) (x (size s)) (width (m_size self))) in Ox.
    fold (box_outside (y (pos p)) (y (size s)) (height (m_size self))) in Oy.
    split.
    + intros B0 B1. rewrite B0 in Ox. rewrite B1 in Ox2. lia.
    + intros B0 B1. rewrite B0 in Oy. rewrite B1 in Oy2. lia.
Qed.

Lemma reflection_ignores_offset_direction_witness :
  exists p1 m1,
    component TPosition 0 bounce_storage_1 = Ok p1 /\
    component TSize 0 bounce_storage_1 = Ok (mkSizeComponent (mkVector2i 4 4)) /\
    component TMovement 0 bounce_storage_1 = Ok m1 /\
    (0 - 4 ÷ 2 < 0 -> 0 < 3 ->
       x (offset m1) = - 3 /\ x (offset m1) < 0 /\ x (pos p1) < 0) /\
    (0 + 4 ÷ 2 > 800 -> 3 < 0 ->
       x (offset m1) = - 3 /\ 0 < x (offset m1) /\ 0 < x (pos p1)) /\
    (100 - 4 ÷ 2 < 0 -> 0 < 0 ->
       y (offset m1) = - 0 /\ y (offset m1) < 0 /\ y (pos p1) < 100) /\
    (100 + 4 ÷ 2 > 600 -> 0 < 0 ->
       y (offset m1) = - 0 /\ 0 < y (offset m1) /\ 100 < y (pos p1)) /\
    (forall (st2 : StorageType) (env2 : unit),
       MovementSystem_update 1 window_domain (bounce_storage_1, tt) = Ok (tt, (st2, env2)) ->
       exists m2,
         component TMovement 0 st2 = Ok m2 /\
         (box_outside 0 4 800 = true ->
          box_outside (x (pos p1)) 4 800 = true ->
          x (offset m2) = 3) /\
         (box_outside 100 4 600 = true ->
          box_outside (y (pos p1)) 4 600 = true ->
          y (offset m2) = 0)).
Proof.
  apply (reflection_ignores_offset_direction 1 window_domain tt tt
           bounce_storage bounce_storage_1 0%nat
           (mkPositionComponent (mkVector2i 0 100)) (mkSizeComponent (mkVector2i 4 4))
           (mkMovementComponent (mkVector2i 3 0))).
  - solve_storage_wf.
  - lia.
  - reflexivity.
  - reflexivity.
  - reflexivity.
  - reflexivity.
Defined.

(** * Bounds of the component accesses *)

(** C5. On a storage built by the constructor and its operations in which
    every container holds at least the population count of elements:
    for every declared type and every index below the count,
    [component<T>(index)] returns the element at [index] of the container
    of [T]; [RenderSystem::update()] completes; and
    [MovementSystem::update()] never leaves the bounds of a container (it
    completes, with every container at its length, or stops on a signed
    overflow). *)
Theorem component_access_in_bounds (count : nat) (st : StorageType) :
  storage_wf st ->
  (forall (T : ComponentType) (c : StorageContainer T),
     components_container T st = Ok c -> (count <= length c)%nat) ->
  (forall (T : ComponentType) (index : nat),
     (index < count)%nat ->
     exists (c : StorageContainer T) (v : component_t T),
       components_container T st = Ok c /\
       (index < length c)%nat /\
       c !! index = Some v /\
       component T index st = Ok v) /\
  (forall (self : RenderSystem) (queue : Renderer),
     exists queue', RenderSystem_update count self (st, queue) = Ok (tt, (st, queue'))) /\
  (forall (Env : Type) (self : MovementSystem) (env : Env),
     (exists st',
        MovementSystem_update count self (st, env) = Ok (tt, (st', env)) /\
        forall T, container_length T st' = container_length T st) \/
     MovementSystem_update count self (st, env) = Raise SignedOverflow).
Proof.
  intros Hwf Hlen. destruct (storage_wf_mk st Hwf) as (rs & ss & ps & ms & ->).
  assert (Hsel : forall T, (count <= length (select T rs ss ps ms))%nat)
    by (intros T; apply Hlen, components_container_mk).
  assert (Hlook : forall T index, (index < count)%nat ->
            exists v, select T rs ss ps ms !! index = Some v).
  { intros T index Hi. apply lookup_lt_is_Some_2. specialize (Hsel T). lia. }
  split; [| split].
  - intros T index Hi. destruct (Hlook T index Hi) as [v Hv].
    exists (select T rs ss ps ms), v.
    split; [apply components_container_mk |].
    split; [specialize (Hsel T); lia |].
    split; [exact Hv |]. apply component_Ok. exact Hv.
  - intros self queue.
    destruct (RenderSystem_update count self (mk_storage rs ss ps ms, queue))
      as [[[] [st' queue']] | f] eqn:E.
    + apply RenderSystem_update_Ok in E as H. destruct H as [-> _]. exists queue'. reflexivity.
    + exfalso. apply RenderSystem_update_Raise in E as (_ & i & Hi & Hnone).
      destruct (Hlook TRender i Hi) as [? Hr], (Hlook TSize i Hi) as [? Hs],
               (Hlook TPosition i Hi) as [? Hp].
      cbn [select] in Hr, Hs, Hp. unfold StorageContainer in *. cbn [component_t] in *.
      destruct Hnone as [? | [? | ?]]; congruence.
  - intros Env self env.
    destruct (MovementSystem_update count self (mk_storage rs ss ps ms, env))
      as [[[] [st' env']] | f] eqn:E.
    + left. apply MovementSystem_update_Ok in E as (-> & ps' & ms' & -> & Hlp & Hlm & _).
      exists (mk_storage rs ss ps' ms'). split; [reflexivity |].
      intros T. rewrite !container_length_mk. destruct T; norm_storage; congruence.
    + right. apply MovementSystem_update_Raise in E as (i & Hi & Hf).
      destruct (Hlook TPosition i Hi) as [? Hp], (Hlook TSize i Hi) as [? Hs],
               (Hlook TMovement i Hi) as [? Hm].
      cbn [select] in Hp, Hs, Hm. unfold StorageContainer in *. cbn [component_t] in *.
      destruct f.
      * exfalso. destruct Hf as [? | [? | ?]]; congruence.
      * reflexivity.
      * destruct Hf as (p0 & s0 & m0 & _ & _ & _ & B).
        apply MovementSystem_step_Raise in B. discriminate.
      * destruct Hf as (p0 & s0 & m0 & _ & _ & _ & B).
        apply MovementSystem_step_Raise in B. discriminate.
Qed.

Lemma component_access_in_bounds_witness :
  (forall (T : ComponentType) (index : nat),
     (index < 2)%nat ->
     exists (c : StorageContainer T) (v : component_t T),
       components_container T sample_storage = Ok c /\
       (index < length c)%nat /\
       c !! index = Some v /\
       component T index sample_storage = Ok v) /\
  (forall (self : RenderSystem) (queue : Renderer),
     exists queue',
       RenderSystem_update 2 self (sample_storage, queue) = Ok (tt, (sample_storage, queue'))) /\
  (forall (Env : Type) (self : MovementSystem) (env : Env),
     (exists st',
        MovementSystem_update 2 self (sample_storage, env) = Ok (tt, (st', env)) /\
        forall T, container_length T st' = container_length T sample_storage) \/
     MovementSystem_update 2 self (sample_storage, env) = Raise SignedOverflow).
Proof.
  apply (component_access_in_bounds 2 sample_storage).
  - solve_storage_wf.
  - intros T c H. destruct T; vm_compute in H; injection H as <-; cbn; lia.
Defined.

(** * RenderSystem *)

(** C7. With a population of one entity of colour [(0.5, 0.6, 0.6, 1.0)],
    size [(15, 15)] and position [(100, 100)], one
    [RenderSystem::update()] appends exactly one submission to the
    renderer's queue and leaves the storage as it was. The submission
    names the system's mesh and shader and binds ["pos"] to the position
    as a vector of floats with third coordinate [0], ["size"] to the size
    as a vector of floats with third coordinate [1], and ["color"] to the
    colour itself; the floats of the position and of the size are exactly
    the integers [100] and [15]. *)
Theorem RenderSystem_update_single_entity (self : RenderSystem)
    (ms : list MovementComponent) (queue : Renderer) :
  let st := mk_storage [mkRenderComponent sample_color]
              [mkSizeComponent (mkVector2i 15 15)]
              [mkPositionComponent (mkVector2i 100 100)] ms in
  exists draw : DrawSubmission,
    RenderSystem_update 1 self (st, queue) = Ok (tt, (st, queue ++ [draw])) /\
    draw_mesh draw = m_mesh_id self /\
    draw_shader draw = m_shader_id self /\
    draw_uniforms draw =
      [ mkUniform "pos" (UniformVector3f
          (mkVector3f (float_of_int 100) (float_of_int 100) (float_of_int 0)));
        mkUniform "size" (UniformVector3f
          (mkVector3f (float_of_int 15) (float_of_int 15) (float_of_int 1)));
        mkUniform "color" (UniformColorf sample_color) ] /\
    float_to_int_exact (float_of_int 100) = Some 100 /\
    float_to_int_exact (float_of_int 15) = Some 15 /\
    sample_color =
      mkColorf (S754_finite false 8388608 (-24)) (S754_finite false 10066330 (-24))
        (S754_finite false 10066330 (-24)) (S754_finite false 8388608 (-23)).
Proof.
  intros st.
  exists (entity_draw self (mkRenderComponent sample_color)
            (mkSizeComponent (mkVector2i 15 15)) (mkPositionComponent (mkVector2i 100 100))).
  split.
  - unfold RenderSystem_update, for_index. cbn [for_index_from]. unfold bind at 1.
    unfold st. rewrite RenderSystem_update_entity_mk. reflexivity.
  - repeat split; reflexivity.
Qed.

(** * The lockstep invariant *)

(** Setup: [App::init] succeeds, and leaves a well-formed storage with
    every container at the population count and the two domain systems
    registered. *)
Lemma App_init_entities_spec (random : nat -> RandomDraw) (count : nat) :
  forall (start : nat) rs ss ps ms (systems : list (SystemPtr Renderer)),
  exists rs' ss' ps' ms',
    App_init_entities random start count (mkECS (mk_storage rs ss ps ms) systems) =
    Ok (mkECS (mk_storage (rs ++ rs') (ss ++ ss') (ps ++ ps') (ms ++ ms')) systems) /\
    length rs' = count /\ length ss' = count /\ length ps' = count /\ length ms' = count.
Proof.
  induction count as [| count IH]; intros start rs ss ps ms systems.
  - exists [], [], [], []. rewrite !app_nil_r. cbn. auto.
  - cbn [App_init_entities]. unfold App_init_entity.
    destruct (rnd_color (random start)) as [[c0 c1] c2].
    rewrite ECS_add_component_mk. cbn [Result_bind replace select].
    rewrite ECS_add_component_mk. cbn [Result_bind replace select].
    rewrite ECS_add_component_mk. cbn [Result_bind replace select].
    rewrite ECS_add_component_mk. cbn [Result_bind replace select].
    match goal with
    | |- context [mk_storage (rs ++ [?r]) (ss ++ [?s]) (ps ++ [?p]) (ms ++ [?m])] =>
        destruct (IH (S start) (rs ++ [r]) (ss ++ [s]) (ps ++ [p]) (ms ++ [m]) systems)
          as (rs' & ss' & ps' & ms' & E & L1 & L2 & L3 & L4);
        exists (r :: rs'), (s :: ss'), (p :: ps'), (m :: ms')
    end.
    split; [| cbn [length]; auto].
    rewrite <- !app_assoc in E. exact E.
Qed.

Lemma App_init_spec (count : nat) (random : nat -> RandomDraw) :
  exists ecs : ECS Renderer,
    App_init count random = Ok ecs /\
    storage_wf (m_storage ecs) /\
    Forall (is_domain_system count) (m_systems ecs) /\
    forall T, container_length T (m_storage ecs) = Ok count.
Proof.
  unfold App_init, ECS_ctor. cbn [foldl Types fst snd].
  destruct (App_init_entities_spec random count 0 [] [] [] [] [])
    as (rs & ss & ps & ms & E & L1 & L2 & L3 & L4).
  change (mkECS _ []) with (mkECS (Env := Renderer) (mk_storage [] [] [] []) []).
  rewrite E. cbn [Result_bind app]. eexists. split; [reflexivity |].
  cbn [ECS_add_system m_storage m_systems app].
  split; [apply mk_storage_wf |]. split.
  - constructor; [left; eexists; reflexivity |].
    constructor; [right; eexists; reflexivity | constructor].
  - intros T. rewrite container_length_mk. destruct T; norm_storage; congruence.
Qed.

Lemma count_adds_updates (T : ComponentType) (calls : list Call) :
  Forall (fun c => c = CallUpdate) calls -> count_adds T calls = O.
Proof.
  unfold count_adds.
  induction 1 as [| c cs -> _ IH]; [reflexivity | exact IH].
Qed.

(** C3. For a scheduler in a well-formed state whose registered systems
    are the domain systems of population [count]:
    - if every container has length [count], then after any number of
      completed ticks every container still has length [count] and the
      same systems are registered;
    - along any completed sequence of the calls the application makes
      ([add_component], [add_system] of a domain system, [update]), the
      length of each container grows by the number of [add_component]
      calls of its type in the sequence and by nothing else, so it never
      decreases and [update] never changes it. *)
Theorem lockstep_invariant (count : nat) (self : ECS Renderer) :
  storage_wf (m_storage self) ->
  Forall (is_domain_system count) (m_systems self) ->
  (forall (ticks : nat) (queue queue' : Renderer) (self' : ECS Renderer),
     (forall T, container_length T (m_storage self) = Ok count) ->
     ECS_update_n ticks self queue = Ok (self', queue') ->
     (forall T, container_length T (m_storage self') = Ok count) /\
     m_systems self' = m_systems self) /\
  (forall (calls : list Call) (queue queue' : Renderer) (self' : ECS Renderer)
          (T : ComponentType) (len : nat),
     ECS_calls count calls (self, queue) = Ok (self', queue') ->
     container_length T (m_storage self) = Ok len ->
     container_length T (m_storage self') = Ok (len + count_adds T calls)%nat /\
     (len <= len + count_adds T calls)%nat /\
     (Forall (fun c => c = CallUpdate) calls -> count_adds T calls = O)).
Proof.
  intros Hwf Hs. split.
  - intros ticks queue queue' self' Hlen Hrun.
    destruct (ECS_update_n_lengths _ _ _ _ _ _ Hs Hwf Hrun) as (Hsys & _ & Hsame).
    split; [| assumption]. intros T. rewrite Hsame. apply Hlen.
  - intros calls queue queue' self' T len Hrun HT.
    destruct (ECS_calls_lengths _ _ _ _ _ _ Hs Hwf Hrun) as (_ & _ & Hgrow).
    split; [apply Hgrow; assumption |]. split; [lia |].
    apply count_adds_updates.
Qed.

Lemma lockstep_invariant_witness :
  ((forall T, container_length T (m_storage sample_ecs_after_ticks) = Ok 2%nat) /\
   m_systems sample_ecs_after_ticks = m_systems sample_ecs) /\
  (container_length TSize (m_storage sample_ecs_after_calls) =
     Ok (2 + count_adds TSize sample_calls)%nat /\
   (2 <= 2 + count_adds TSize sample_calls)%nat /\
   (Forall (fun c => c = CallUpdate) sample_calls -> count_adds TSize sample_calls = O)).
Proof.
  destruct (lockstep_invariant 2 sample_ecs) as [Hticks Hcalls].
  - cbn [sample_ecs m_storage]. solve_storage_wf.
  - cbn [sample_ecs m_systems].
    constructor; [left; eexists; reflexivity |].
    constructor; [right; eexists; reflexivity | constructor].
  - split.
    + apply (Hticks 2%nat [] (sample_draws ++ sample_draws_moved) sample_ecs_after_ticks).
      * intros T. destruct T; reflexivity.
      * reflexivity.
    + apply (Hcalls sample_calls [] (sample_draws ++ sample_draws_moved)
               sample_ecs_after_calls TSize 2%nat).
      * reflexivity.
      * reflexivity.
Defined.

(** * The frame counter *)

(** The loop of [tick] in closed form: nothing happens up to one second;
    past it the counter is reported (zero when more than one second is
    taken off) and reset, and the time kept is what is left in
    [(0, 1s]]. *)
Lemma tick_rollover_spec (self : FrameCounter) :
  tick_rollover self =
  if m_frame_time self <=? one_second then self
  else mkFrameCounter
         (if m_frame_time self <=? 2 * one_second then m_current_fps self else 0)
         0
         ((m_frame_time self - 1) mod one_second + 1)
         (m_last_frame_duration self) (m_last_frame_time self).
Proof.
  functional induction (tick_rollover self) as [self Hgt IH | self Hle].
  - rewrite IH. clear IH. cbn [m_fps m_current_fps m_frame_time
      m_last_frame_duration m_last_frame_time].
    apply Z.gtb_lt in Hgt.
    destruct (Z.leb_spec (m_frame_time self) one_second) as [L0 | L0]; [lia |].
    destruct (Z.leb_spec (m_frame_time self - one_second) one_second) as [L1 | L1].
    + destruct (Z.leb_spec (m_frame_time self) (2 * one_second)) as [L2 | L2]; [| lia].
      f_equal.
      rewrite <- (Z.mod_unique_pos (m_frame_time self - 1) one_second 1
                    (m_frame_time self - 1 - one_second)); lia.
    + destruct (Z.leb_spec (m_frame_time self) (2 * one_second)) as [L2 | L2]; [lia |].
      replace (m_frame_time self - one_second - 1)
        with (m_frame_time self - 1 + (-1) * one_second) by lia.
      rewrite Z_mod_plus_full.
      destruct (Z.leb_spec (m_frame_time self - one_second) (2 * one_second));
        reflexivity.
  - rewrite Z.gtb_ltb in Hle. apply Z.ltb_ge in Hle.
    destruct (Z.leb_spec (m_frame_time self) one_second); [reflexivity | lia].
Qed.

(** * Further properties *)

(** ** Type resolution *)

(** [get_component_index] resolves every type of the pack to a slot below
    [variant_size] (the [static_assert] holds), the slot whose alternative
    is the vector of that type and the first such slot; two types never
    share a slot. Started past the slot of a type, the search runs to
    [variant_size], the value the [static_assert] rejects. *)
Theorem component_index_v_resolves (T : ComponentType) :
  (component_index_v T < variant_size)%nat /\
  variant_alternative (component_index_v T) = Some T /\
  (forall j, (j < component_index_v T)%nat -> variant_alternative j <> Some T) /\
  (forall U, component_index_v U = component_index_v T -> U = T) /\
  (forall index, (index <= variant_size)%nat ->
     get_component_index (variant_size - index) T index =
     if decide (index <= component_index_v T)%nat then component_index_v T
     else variant_size).
Proof.
  split; [apply component_index_v_lt |].
  split; [apply component_index_v_alternative |].
  split; [| split; [intros U; apply component_index_v_inj |]].
  - intros j Hj.
    destruct T;
      [ change (component_index_v TRender) with 0%nat in Hj
      | change (component_index_v TSize) with 1%nat in Hj
      | change (component_index_v TPosition) with 2%nat in Hj
      | change (component_index_v TMovement) with 3%nat in Hj ];
      do 3 (destruct j as [| j]; [first [lia | discriminate] |]); lia.
  - intros index Hi. change variant_size with 4%nat in *.
    destruct T; do 5 (destruct index as [| index]; [reflexivity |]); lia.
Qed.

(** ** Construction *)

(** A new scheduler has an empty container for every declared type and no
    system: every component access is out of bounds, and a tick changes
    nothing. *)
Theorem ECS_ctor_empty (Env : Type) :
  storage_wf (m_storage (@ECS_ctor Env)) /\
  m_systems (@ECS_ctor Env) = [] /\
  (forall T, components_container T (m_storage (@ECS_ctor Env)) = Ok []) /\
  (forall T index, component T index (m_storage (@ECS_ctor Env)) = Raise OutOfBounds) /\
  (forall env : Env, ECS_update ECS_ctor env = Ok (ECS_ctor, env)).
Proof.
  split; [apply ECS_ctor_wf |]. split; [reflexivity |].
  split; [intros T; destruct T; reflexivity |].
  split; [intros T index; destruct T; reflexivity | reflexivity].
Qed.

(** ** Appending and reading back *)

(** After [add_component(v)] the new element is read back at the index
    that was the length of its container; every index that could be read
    before reads the same value (appending never moves an element), and
    the other types read as before at every index. *)
Theorem add_component_then_component {Env : Type} (T : ComponentType) (v : component_t T)
    (self : ECS Env) (c : StorageContainer T) :
  storage_wf (m_storage self) ->
  components_container T (m_storage self) = Ok c ->
  exists self' : ECS Env,
    ECS_add_component T v self = Ok self' /\
    component T (length c) (m_storage self') = Ok v /\
    component T (S (length c)) (m_storage self') = Raise OutOfBounds /\
    (forall index x,
       component T index (m_storage self) = Ok x ->
       component T index (m_storage self') = Ok x) /\
    (forall U index, U <> T ->
       component U index (m_storage self') = component U index (m_storage self)).
Proof.
  intros Hwf Hc. destruct self as [st systems]. cbn [m_storage] in *.
  destruct (storage_wf_mk st Hwf) as (rs & ss & ps & ms & ->).
  rewrite components_container_mk in Hc. injection Hc as <-.
  eexists. split; [apply ECS_add_component_mk |]. cbn [m_storage].
  unfold component. rewrite select_replace_same, components_container_mk.
  cbn [Result_bind]. unfold StorageContainer in *.
  split; [| split; [| split]].
  - rewrite lookup_app_r by reflexivity. rewrite Nat.sub_diag. reflexivity.
  - rewrite lookup_ge_None_2; [reflexivity |]. rewrite length_app. cbn. lia.
  - intros index x Hx.
    match type of Hx with
    | match ?t with _ => _ end = _ => destruct t as [y |] eqn:Hy; [| discriminate Hx]
    end.
    rewrite (lookup_app_l_Some _ _ _ _ Hy). exact Hx.
  - intros U index ne. rewrite select_replace_other by assumption.
    rewrite components_container_mk. reflexivity.
Qed.

Lemma add_component_then_component_witness :
  exists self' : ECS unit,
    ECS_add_component TSize (mkSizeComponent (mkVector2i 15 15))
      (mkECS sample_storage []) = Ok self' /\
    component TSize 2 (m_storage self') = Ok (mkSizeComponent (mkVector2i 15 15)) /\
    component TSize 3 (m_storage self') = Raise OutOfBounds /\
    (forall index x,
       component TSize index sample_storage = Ok x ->
       component TSize index (m_storage self') = Ok x) /\
    (forall U index, U <> TSize ->
       component U index (m_storage self') = component U index sample_storage).
Proof.
  apply (add_component_then_component TSize (mkSizeComponent (mkVector2i 15 15))
           (mkECS sample_storage [])
           [mkSizeComponent (mkVector2i 2 2); mkSizeComponent (mkVector2i 14 18)]).
  - cbn [m_storage]. solve_storage_wf.
  - reflexivity.
Defined.

(** ** Bounds of [component<T>(index)] *)



(** ** Writing through the reference of [component<T>(index)] *)

(** A value written through the reference [component<T>(index)] returns
    is read back at the same index; the other indices of the container,
    the other containers and every length are as before, and the storage
    stays well formed. Where the read is out of bounds, so is the write. *)
Theorem component_assign_then_component (T : ComponentType) (index : nat)
    (v old : component_t T) (st : StorageType) :
  storage_wf st ->
  component T index st = Ok old ->
  exists st' : StorageType,
    component_assign T index v st = Ok st' /\
    storage_wf st' /\
    component T index st' = Ok v /\
    (forall j, j <> index -> component T j st' = component T j st) /\
    (forall U j, U <> T -> component U j st' = component U j st) /\
    (forall U, container_length U st' = container_length U st).
Proof.
  intros Hwf Hold. destruct (storage_wf_mk st Hwf) as (rs & ss & ps & ms & ->).
  apply component_Ok in Hold. apply lookup_lt_Some in Hold as Hlt.
  eexists. rewrite component_assign_mk, Hold.
  split; [reflexivity |]. split; [apply replace_wf |].
  unfold component. rewrite select_replace_same. cbn [Result_bind].
  unfold StorageContainer in *.
  split; [rewrite list_lookup_insert_eq by assumption; reflexivity |].
  split; [| split].
  - intros j ne. rewrite components_container_mk. cbn [Result_bind].
    rewrite list_lookup_insert_ne by congruence. reflexivity.
  - intros U j ne. rewrite select_replace_other by assumption.
    rewrite components_container_mk. reflexivity.
  - intros U. rewrite container_length_replace, container_length_mk.
    destruct (decide (U = T)) as [-> | ne]; [| reflexivity].
    rewrite length_insert. reflexivity.
Qed.

Lemma component_assign_then_component_witness :
  exists st' : StorageType,
    component_assign TPosition 1 (mkPositionComponent (mkVector2i 7 9)) sample_storage = Ok st' /\
    storage_wf st' /\
    component TPosition 1 st' = Ok (mkPositionComponent (mkVector2i 7 9)) /\
    (forall j, j <> 1%nat -> component TPosition j st' = component TPosition j sample_storage) /\
    (forall U j, U <> TPosition -> component U j st' = component U j sample_storage) /\
    (forall U, container_length U st' = container_length U sample_storage).
Proof.
  apply (component_assign_then_component TPosition 1 (mkPositionComponent (mkVector2i 7 9))
           (mkPositionComponent (mkVector2i 150 150)) sample_storage).
  - solve_storage_wf.
  - reflexivity.
Defined.

(** ** Registering a system *)

Lemma for_each_system_app {Env : Type} (systems more : list (SystemPtr Env))
    (w : StorageType * Env) :
  for_each_system (systems ++ more) w =
  match for_each_system systems w with
  | Ok (_, w') => for_each_system more w'
  | Raise f => Raise f
  end.
Proof.
  revert w. induction systems as [| s rest IH]; intros w.
  - reflexivity.
  - cbn [app for_each_system]. unfold bind at 1 2.
    destruct (SystemPtr_update s w) as [[[] w1] | f]; [apply IH | reflexivity].
Qed.

(** [add_system] leaves the storage alone and puts the system last: a tick
    of the extended scheduler is a tick of the old one followed by the new
    system's [update()] on the state that tick left, and a fault of either
    is the fault of the tick. *)
Theorem add_system_then_update {Env : Type} (s : SystemPtr Env) (self : ECS Env) (env : Env) :
  m_storage (ECS_add_system s self) = m_storage self /\
  m_systems (ECS_add_system s self) = m_systems self ++ [s] /\
  ECS_update (ECS_add_system s self) env =
  match ECS_update self env with
  | Ok (self1, env1) =>
      match SystemPtr_update s (m_storage self1, env1) with
      | Ok (_, (st2, env2)) => Ok (mkECS st2 (m_systems self ++ [s]), env2)
      | Raise f => Raise f
      end
  | Raise f => Raise f
  end.
Proof.
  split; [reflexivity |]. split; [reflexivity |].
  unfold ECS_update, ECS_add_system. cbn [m_storage m_systems].
  rewrite for_each_system_app.
  destruct (for_each_system (m_systems self) (m_storage self, env))
    as [[[] [st1 env1]] | f]; [| reflexivity].
  cbn [m_storage for_each_system]. unfold bind, ret.
  destruct (SystemPtr_update s (st1, env1)) as [[[] [st2 env2]] | f]; reflexivity.
Qed.

(** ** [RenderSystem::update] for any population *)

(** A completed [RenderSystem::update()] leaves the storage as it was and
    appends to the renderer's queue, after what was there, exactly one
    submission per entity below the population count, in index order; the
    submission of entity [k] names the system's mesh and shader and binds
    ["pos"], ["size"] and ["color"] to that entity's position (with third
    coordinate [0]), size (with third coordinate [1]) and colour. *)
Theorem RenderSystem_update_submissions (count : nat) (self : RenderSystem)
    (st st' : StorageType) (queue queue' : Renderer) :
  storage_wf st ->
  RenderSystem_update count self (st, queue) = Ok (tt, (st', queue')) ->
  st' = st /\
  exists draws : list DrawSubmission,
    queue' = queue ++ draws /\
    length draws = count /\
    forall k, (k < count)%nat ->
      exists rc sc pc,
        component TRender k st = Ok rc /\
        component TSize k st = Ok sc /\
        component TPosition k st = Ok pc /\
        draws !! k =
          Some (mkDrawSubmission (m_mesh_id self) (m_shader_id self)
                  [ mkUniform "pos" (UniformVector3f (Vector3f_of (pos pc) 0));
                    mkUniform "size" (UniformVector3f (Vector3f_of (size sc) 1));
                    mkUniform "color" (UniformColorf (color rc)) ]).
Proof.
  intros Hwf Hrun. destruct (storage_wf_mk st Hwf) as (rs & ss & ps & ms & ->).
  apply RenderSystem_update_Ok in Hrun as (-> & draws & -> & Hlen & Hdraws).
  split; [reflexivity |]. exists draws. split; [reflexivity |]. split; [assumption |].
  intros k Hk. destruct (Hdraws k Hk) as (rc & sc & pc & A1 & A2 & A3 & A4).
  exists rc, sc, pc. repeat (split; [apply component_Ok; assumption |]). exact A4.
Qed.

Lemma RenderSystem_update_submissions_witness :
  sample_storage = sample_storage /\
  exists draws : list DrawSubmission,
    sample_draws = [] ++ draws /\
    length draws = 2%nat /\
    forall k, (k < 2)%nat ->
      exists rc sc pc,
        component TRender k sample_storage = Ok rc /\
        component TSize k sample_storage = Ok sc /\
        component TPosition k sample_storage = Ok pc /\
        draws !! k =
          Some (mkDrawSubmission (m_mesh_id sample_render_system)
                  (m_shader_id sample_render_system)
                  [ mkUniform "pos" (UniformVector3f (Vector3f_of (pos pc) 0));
                    mkUniform "size" (UniformVector3f (Vector3f_of (size sc) 1));
                    mkUniform "color" (UniformColorf (color rc)) ]).
Proof.
  apply (RenderSystem_update_submissions 2 sample_render_system
           sample_storage sample_storage [] sample_draws).
  - solve_storage_wf.
  - reflexivity.
Defined.

(** [RenderSystem::update()] completes exactly when every entity below the
    population count has a colour, a size and a position; its only fault
    is the out-of-bounds access of a component missing below the count. *)
Theorem RenderSystem_update_defined (count : nat) (self : RenderSystem)
    (st : StorageType) (queue : Renderer) :
  storage_wf st ->
  ((exists queue', RenderSystem_update count self (st, queue) = Ok (tt, (st, queue'))) <->
   (forall index, (index < count)%nat ->
      exists rc sc pc,
        component TRender index st = Ok rc /\
        component TSize index st = Ok sc /\
        component TPosition index st = Ok pc)) /\
  (forall f, RenderSystem_update count self (st, queue) = Raise f ->
     f = OutOfBounds /\
     exists index, (index < count)%nat /\
       (component TRender index st = Raise OutOfBounds \/
        component TSize index st = Raise OutOfBounds \/
        component TPosition index st = Raise OutOfBounds)).
Proof.
  intros Hwf. destruct (storage_wf_mk st Hwf) as (rs & ss & ps & ms & ->).
  assert (Hraise : forall f,
            RenderSystem_update count self (mk_storage rs ss ps ms, queue) = Raise f ->
            f = OutOfBounds /\
            exists index, (index < count)%nat /\
              (component TRender index (mk_storage rs ss ps ms) = Raise OutOfBounds \/
               component TSize index (mk_storage rs ss ps ms) = Raise OutOfBounds \/
               component TPosition index (mk_storage rs ss ps ms) = Raise OutOfBounds)).
  { intros f E. apply RenderSystem_update_Raise in E as (-> & i & Hi & Hnone).
    split; [reflexivity |]. exists i. split; [assumption |].
    rewrite !component_Raise. cbn [select]. tauto. }
  split; [| exact Hraise]. split.
  - intros [queue' E] index Hi.
    apply RenderSystem_update_Ok in E as (_ & draws & _ & _ & Hdraws).
    destruct (Hdraws index Hi) as (rc & sc & pc & A1 & A2 & A3 & _).
    exists rc, sc, pc. repeat split; apply component_Ok; assumption.
  - intros Hall.
    destruct (RenderSystem_update count self (mk_storage rs ss ps ms, queue))
      as [[[] [st' queue']] | f] eqn:E.
    + apply RenderSystem_update_Ok in E as H. destruct H as [-> _]. exists queue'. reflexivity.
    + exfalso. destruct (Hraise f eq_refl) as (_ & i & Hi & Hnone).
      destruct (Hall i Hi) as (rc & sc & pc & A1 & A2 & A3).
      destruct Hnone as [? | [? | ?]]; congruence.
Qed.

Lemma RenderSystem_update_defined_witness :
  ((exists queue',
      RenderSystem_update 3 sample_render_system (sample_storage, []) =
      Ok (tt, (sample_storage, queue'))) <->
   (forall index, (index < 3)%nat ->
      exists rc sc pc,
        component TRender index sample_storage = Ok rc /\
        component TSize index sample_storage = Ok sc /\
        component TPosition index sample_storage = Ok pc)) /\
  (forall f, RenderSystem_update 3 sample_render_system (sample_storage, []) = Raise f ->
     f = OutOfBounds /\
     exists index, (index < 3)%nat /\
       (component TRender index sample_storage = Raise OutOfBounds \/
        component TSize index sample_storage = Raise OutOfBounds \/
        component TPosition index sample_storage = Raise OutOfBounds)).
Proof.
  apply (RenderSystem_update_defined 3 sample_render_system sample_storage []).
  solve_storage_wf.
Defined.

(** ** [MovementSystem::update] for any population *)

(** A completed [MovementSystem::update()] touches only the entities
    below the population count: every component at an index from the
    count on reads as before, and every container keeps its length. *)
Theorem MovementSystem_update_beyond_population {Env : Type} (count : nat)
    (self : MovementSystem) (env env' : Env) (st st' : StorageType) :
  storage_wf st ->
  MovementSystem_update count self (st, env) = Ok (tt, (st', env')) ->
  (forall T index, (count <= index)%nat -> component T index st' = component T index st) /\
  (forall T, container_length T st' = container_length T st).
Proof.
  intros Hwf Hrun. destruct (storage_wf_mk st Hwf) as (rs & ss & ps & ms & ->).
  apply MovementSystem_update_Ok in Hrun as (_ & ps' & ms' & -> & Hlp & Hlm & Hout & _).
  split.
  - intros T index Hi. rewrite !component_mk. destruct (Hout index Hi) as [E1 E2].
    destruct T; norm_storage; rewrite ?E1, ?E2; reflexivity.
  - intros T. rewrite !container_length_mk. destruct T; norm_storage; congruence.
Qed.

Lemma MovementSystem_update_beyond_population_witness :
  (forall T index, (1 <= index)%nat ->
     component T index
       (mk_storage
          [mkRenderComponent sample_color; mkRenderComponent sample_color]
          [mkSizeComponent (mkVector2i 2 2); mkSizeComponent (mkVector2i 14 18)]
          [mkPositionComponent (mkVector2i 5 5); mkPositionComponent (mkVector2i 150 150)]
          [mkMovementComponent (mkVector2i 5 5); mkMovementComponent (mkVector2i 5 (-3))]) =
     component T index sample_storage) /\
  (forall T,
     container_length T
       (mk_storage
          [mkRenderComponent sample_color; mkRenderComponent sample_color]
          [mkSizeComponent (mkVector2i 2 2); mkSizeComponent (mkVector2i 14 18)]
          [mkPositionComponent (mkVector2i 5 5); mkPositionComponent (mkVector2i 150 150)]
          [mkMovementComponent (mkVector2i 5 5); mkMovementComponent (mkVector2i 5 (-3))]) =
     container_length T sample_storage).
Proof.
  apply (MovementSystem_update_beyond_population 1 window_domain tt tt sample_storage).
  - solve_storage_wf.
  - reflexivity.
Defined.

Lemma reflected_abs (pos size extent off : Z) :
  Z.abs (reflected pos size extent off) = Z.abs off.
Proof. unfold reflected. destruct (box_outside pos size extent); lia. Qed.

(** One tick of [MovementSystem] keeps what [tick_related] names. *)
Lemma MovementSystem_update_keeps_speed_aux {Env : Type} (count : nat)
    (self : MovementSystem) (env env' : Env) (st st' : StorageType) :
  storage_wf st ->
  MovementSystem_update count self (st, env) = Ok (tt, (st', env')) ->
  tick_related st st'.
Proof.
  intros Hwf Hrun. destruct (storage_wf_mk st Hwf) as (rs & ss & ps & ms & ->).
  apply MovementSystem_update_Ok in Hrun as (_ & ps' & ms' & -> & Hlp & Hlm & Hout & Hin).
  split; [apply mk_storage_wf |].
  split; [intros; rewrite !component_mk; reflexivity |].
  split; [intros; rewrite !component_mk; reflexivity |].
  split; [intros T; rewrite !container_length_mk; destruct T; norm_storage; congruence |].
  intros index m Hm. apply component_Ok in Hm.
  unfold StorageContainer in Hm. cbn [select component_t] in Hm.
  destruct (Nat.lt_ge_cases index count) as [Hi | Hi].
  - destruct (Hin index Hi) as (p0 & s0 & m0 & p' & m' & A1 & A2 & A3 & A4 & A5 & A6).
    assert (m0 = m) by congruence. subst m0.
    apply MovementSystem_step_Ok in A4 as (_ & Ox & Oy & _ & _).
    exists m'. split; [apply component_Ok; exact A6 |].
    unfold same_speed. rewrite Ox, Oy, !reflected_abs. auto.
  - destruct (Hout index Hi) as [_ E2]. exists m.
    split; [apply component_Ok; norm_storage; congruence | split; reflexivity].
Qed.

(** A completed tick changes no speed and moves every entity below the
    population count by exactly its speed: on each axis the offset keeps
    its absolute value, and the position changes by that value. *)
Theorem MovementSystem_update_keeps_speed {Env : Type} (count : nat)
    (self : MovementSystem) (env env' : Env) (st st' : StorageType) :
  storage_wf st ->
  MovementSystem_update count self (st, env) = Ok (tt, (st', env')) ->
  (forall index m,
     component TMovement index st = Ok m ->
     exists m',
       component TMovement index st' = Ok m' /\
       Z.abs (x (offset m')) = Z.abs (x (offset m)) /\
       Z.abs (y (offset m')) = Z.abs (y (offset m))) /\
  (forall index p m,
     (index < count)%nat ->
     component TPosition index st = Ok p ->
     component TMovement index st = Ok m ->
     exists p',
       component TPosition index st' = Ok p' /\
       Z.abs (x (pos p') - x (pos p)) = Z.abs (x (offset m)) /\
       Z.abs (y (pos p') - y (pos p)) = Z.abs (y (offset m))).
Proof.
  intros Hwf Hrun. destruct (storage_wf_mk st Hwf) as (rs & ss & ps & ms & ->).
  apply MovementSystem_update_Ok in Hrun as (_ & ps' & ms' & -> & _ & _ & Hout & Hin).
  split.
  - intros index m Hm. apply component_Ok in Hm.
    unfold StorageContainer in Hm. cbn [select component_t] in Hm.
    destruct (Nat.lt_ge_cases index count) as [Hi | Hi].
    + destruct (Hin index Hi) as (p0 & s0 & m0 & p' & m' & A1 & A2 & A3 & A4 & A5 & A6).
      assert (m0 = m) by congruence. subst m0.
      apply MovementSystem_step_Ok in A4 as (_ & Ox & Oy & _ & _).
      exists m'. split; [apply component_Ok; exact A6 |].
      rewrite Ox, Oy, !reflected_abs. auto.
    + destruct (Hout index Hi) as [_ E2]. exists m.
      split; [apply component_Ok; norm_storage; congruence | auto].
  - intros index p m Hi Hp Hm. apply component_Ok in Hp, Hm.
    unfold StorageContainer in Hp, Hm. cbn [select component_t] in Hp, Hm.
    destruct (Hin index Hi) as (p0 & s0 & m0 & p' & m' & A1 & A2 & A3 & A4 & A5 & A6).
    assert (m0 = m) by congruence. assert (p0 = p) by congruence. subst m0 p0.
    apply MovementSystem_step_Ok in A4 as (_ & Ox & Oy & Px & Py).
    exists p'. split; [apply component_Ok; exact A5 |].
    rewrite Px, Py, Ox, Oy.
    replace (x (pos p) + reflected (x (pos p)) (x (size s0)) (width (m_size self)) (x (offset m))
             - x (pos p))
      with (reflected (x (pos p)) (x (size s0)) (width (m_size self)) (x (offset m))) by lia.
    replace (y (pos p) + reflected (y (pos p)) (y (size s0)) (height (m_size self)) (y (offset m))
             - y (pos p))
      with (reflected (y (pos p)) (y (size s0)) (height (m_size self)) (y (offset m))) by lia.
    rewrite !reflected_abs. auto.
Qed.

Lemma MovementSystem_update_keeps_speed_witness :
  (forall index m,
     component TMovement index sample_storage = Ok m ->
     exists m',
       component TMovement index sample_storage_moved = Ok m' /\
       Z.abs (x (offset m')) = Z.abs (x (offset m)) /\
       Z.abs (y (offset m')) = Z.abs (y (offset m))) /\
  (forall index p m,
     (index < 2)%nat ->
     component TPosition index sample_storage = Ok p ->
     component TMovement index sample_storage = Ok m ->
     exists p',
       component TPosition index sample_storage_moved = Ok p' /\
       Z.abs (x (pos p') - x (pos p)) = Z.abs (x (offset m)) /\
       Z.abs (y (pos p') - y (pos p)) = Z.abs (y (offset m))).
Proof.
  apply (MovementSystem_update_keeps_speed 2 window_domain tt tt
           sample_storage sample_storage_moved).
  - solve_storage_wf.
  - reflexivity.
Defined.

(** ** An entity across a boundary on consecutive ticks *)

(** An entity whose box is across a boundary of an axis before each of
    two consecutive completed ticks is, on that axis, back at the position
    it had before the first: it steps out and back, and does not return
    into the domain. *)
Theorem MovementSystem_update_trapped {Env : Type} (count : nat) (self : MovementSystem)
    (env env1 env2 : Env) (st st1 st2 : StorageType) (index : nat)
    (p p1 : PositionComponent) (s : SizeComponent) (m : MovementComponent) :
  storage_wf st ->
  (index < count)%nat ->
  component TPosition index st = Ok p ->
  component TSize index st = Ok s ->
  component TMovement index st = Ok m ->
  MovementSystem_update count self (st, env) = Ok (tt, (st1, env1)) ->
  component TPosition index st1 = Ok p1 ->
  MovementSystem_update count self (st1, env1) = Ok (tt, (st2, env2)) ->
  exists p2,
    component TPosition index st2 = Ok p2 /\
    (box_outside (x (pos p)) (x (size s)) (width (m_size self)) = true ->
     box_outside (x (pos p1)) (x (size s)) (width (m_size self)) = true ->
     x (pos p1) = x (pos p) - x (offset m) /\ x (pos p2) = x (pos p)) /\
    (box_outside (y (pos p)) (y (size s)) (height (m_size self)) = true ->
     box_outside (y (pos p1)) (y (size s)) (height (m_size self)) = true ->
     y (pos p1) = y (pos p) - y (offset m) /\ y (pos p2) = y (pos p)).
Proof.
  intros Hwf Hi Hp Hs Hm Hrun1 Hp1 Hrun2.
  destruct (MovementSystem_update_entity_result _ _ _ _ _ _ _ _ _ _ Hwf Hrun1 Hi Hp Hs Hm)
    as (Hwf1 & _ & q1 & m1 & Hq1 & Hm1 & Hs1 & Hstep1).
  assert (q1 = p1) by congruence. subst q1.
  destruct (MovementSystem_update_entity_result _ _ _ _ _ _ _ _ _ _ Hwf1 Hrun2 Hi Hp1 Hs1 Hm1)
    as (_ & _ & p2 & m2 & Hp2 & _ & _ & Hstep2).
  apply MovementSystem_step_Ok in Hstep1 as (_ & Ox1 & Oy1 & Px1 & Py1).
  apply MovementSystem_step_Ok in Hstep2 as (_ & Ox2 & Oy2 & Px2 & Py2).
  exists p2. split; [assumption |]. unfold reflected in *. split.
  - intros B0 B1. rewrite B0 in Ox1. rewrite B1 in Ox2. lia.
  - intros B0 B1. rewrite B0 in Oy1. rewrite B1 in Oy2. lia.
Qed.

Lemma MovementSystem_update_trapped_witness :
  exists p2,
    component TPosition 0 bounce_storage = Ok p2 /\
    (box_outside 0 4 800 = true ->
     box_outside (-3) 4 800 = true ->
     -3 = 0 - 3 /\ x (pos p2) = 0) /\
    (box_outside 100 4 600 = true ->
     box_outside 100 4 600 = true ->
     100 = 100 - 0 /\ y (pos p2) = 100).
Proof.
  apply (MovementSystem_update_trapped 1 window_domain tt tt tt
           bounce_storage bounce_storage_1 bounce_storage 0%nat
           (mkPositionComponent (mkVector2i 0 100))
           (mkPositionComponent (mkVector2i (-3) 100))
           (mkSizeComponent (mkVector2i 4 4))
           (mkMovementComponent (mkVector2i 3 0))).
  - solve_storage_wf.
  - lia.
  - reflexivity.
  - reflexivity.
  - reflexivity.
  - reflexivity.
  - reflexivity.
  - reflexivity.
Defined.

(** ** What ticks of the application keep *)

Lemma tick_related_refl (st : StorageType) : storage_wf st -> tick_related st st.
Proof.
  intros Hwf. repeat split; try assumption; try apply Hwf.
  intros index m Hm. exists m. repeat split; assumption.
Qed.

Lemma tick_related_trans (a b c : StorageType) :
  tick_related a b -> tick_related b c -> tick_related a c.
Proof.
  intros (_ & R1 & S1 & L1 & M1) (Hwf & R2 & S2 & L2 & M2).
  split; [assumption |].
  split; [intros; rewrite R2; apply R1 |].
  split; [intros; rewrite S2; apply S1 |].
  split; [intros; rewrite L2; apply L1 |].
  intros index m Hm.
  destruct (M1 index m Hm) as (m1 & Hm1 & X1 & Y1).
  destruct (M2 index m1 Hm1) as (m2 & Hm2 & X2 & Y2).
  exists m2. split; [assumption |]. split; congruence.
Qed.

Lemma domain_system_tick_related (count : nat) (s : SystemPtr Renderer)
    (st st' : StorageType) (queue queue' : Renderer) (u : unit) :
  is_domain_system count s ->
  storage_wf st ->
  SystemPtr_update s (st, queue) = Ok (u, (st', queue')) ->
  tick_related st st'.
Proof.
  intros Hs Hwf Hrun. destruct u.
  destruct Hs as [[self ->] | [self ->]].
  - change (RenderSystem_update count self (st, queue) = Ok (tt, (st', queue'))) in Hrun.
    destruct (storage_wf_mk st Hwf) as (rs & ss & ps & ms & ->).
    apply RenderSystem_update_Ok in Hrun as [-> _].
    apply tick_related_refl, mk_storage_wf.
  - change (MovementSystem_update count self (st, queue) = Ok (tt, (st', queue'))) in Hrun.
    exact (MovementSystem_update_keeps_speed_aux count self queue queue' st st' Hwf Hrun).
Qed.

Lemma for_each_domain_system_related (count : nat) (systems : list (SystemPtr Renderer)) :
  Forall (is_domain_system count) systems ->
  forall (st st' : StorageType) (queue queue' : Renderer) (u : unit),
  storage_wf st ->
  for_each_system systems (st, queue) = Ok (u, (st', queue')) ->
  tick_related st st'.
Proof.
  induction 1 as [| s rest Hs _ IH]; intros st st' queue queue' u Hwf Hrun.
  - injection Hrun as <- <-. apply tick_related_refl, Hwf.
  - cbn [for_each_system] in Hrun. unfold bind at 1 in Hrun.
    destruct (SystemPtr_update s (st, queue)) as [[u1 [st1 queue1]] | f] eqn:Es;
      [| discriminate].
    pose proof (domain_system_tick_related _ _ _ _ _ _ _ Hs Hwf Es) as R1.
    eapply tick_related_trans; [exact R1 |].
    eapply IH; [apply R1 | exact Hrun].
Qed.

Lemma ECS_update_n_related (count : nat) (ticks : nat) :
  forall (self self' : ECS Renderer) (queue queue' : Renderer),
  Forall (is_domain_system count) (m_systems self) ->
  storage_wf (m_storage self) ->
  ECS_update_n ticks self queue = Ok (self', queue') ->
  tick_related (m_storage self) (m_storage self').
Proof.
  induction ticks as [| ticks IH]; intros self self' queue queue' Hs Hwf Hrun.
  - injection Hrun as <- <-. apply tick_related_refl, Hwf.
  - cbn [ECS_update_n] in Hrun.
    destruct (ECS_update self queue) as [[self1 queue1] | f] eqn:Eu; [| discriminate].
    apply ECS_update_systems in Eu as [Hsys Hloop].
    pose proof (for_each_domain_system_related _ _ Hs _ _ _ _ _ Hwf Hloop) as R1.
    eapply tick_related_trans; [exact R1 |].
    eapply IH; [rewrite Hsys; exact Hs | apply R1 | exact Hrun].
Qed.

(** Over any number of completed ticks of a scheduler whose systems are
    the two domain systems, no colour and no size changes, no container
    changes its length, and every offset keeps its absolute value on each
    axis: entities only ever turn around, they never speed up, slow down,
    grow or change colour. *)
Theorem ticks_keep_colours_sizes_speeds (count ticks : nat) (self self' : ECS Renderer)
    (queue queue' : Renderer) :
  storage_wf (m_storage self) ->
  Forall (is_domain_system count) (m_systems self) ->
  ECS_update_n ticks self queue = Ok (self', queue') ->
  (forall index,
     component TRender index (m_storage self') = component TRender index (m_storage self)) /\
  (forall index,
     component TSize index (m_storage self') = component TSize index (m_storage self)) /\
  (forall T, container_length T (m_storage self') = container_length T (m_storage self)) /\
  (forall index m,
     component TMovement index (m_storage self) = Ok m ->
     exists m',
       component TMovement index (m_storage self') = Ok m' /\
       Z.abs (x (offset m')) = Z.abs (x (offset m)) /\
       Z.abs (y (offset m')) = Z.abs (y (offset m))).
Proof.
  intros Hwf Hs Hrun.
  destruct (ECS_update_n_related _ _ _ _ _ _ Hs Hwf Hrun) as (_ & HR & HS & HL & HM).
  split; [assumption |]. split; [assumption |]. split; [assumption |].
  intros index m Hm. destruct (HM index m Hm) as (m' & Hm' & X & Y).
  exists m'. auto.
Qed.

Lemma ticks_keep_colours_sizes_speeds_witness :
  (forall index,
     component TRender index (m_storage sample_ecs_after_ticks) =
     component TRender index (m_storage sample_ecs)) /\
  (forall index,
     component TSize index (m_storage sample_ecs_after_ticks) =
     component TSize index (m_storage sample_ecs)) /\
  (forall T,
     container_length T (m_storage sample_ecs_after_ticks) =
     container_length T (m_storage sample_ecs)) /\
  (forall index m,
     component TMovement index (m_storage sample_ecs) = Ok m ->
     exists m',
       component TMovement index (m_storage sample_ecs_after_ticks) = Ok m' /\
       Z.abs (x (offset m')) = Z.abs (x (offset m)) /\
       Z.abs (y (offset m')) = Z.abs (y (offset m))).
Proof.
  apply (ticks_keep_colours_sizes_speeds 2 2 sample_ecs sample_ecs_after_ticks
           [] (sample_draws ++ sample_draws_moved)).
  - cbn [sample_ecs m_storage]. solve_storage_wf.
  - cbn [sample_ecs m_systems].
    constructor; [left; eexists; reflexivity |].
    constructor; [right; eexists; reflexivity | constructor].
  - reflexivity.
Defined.

(** ** Setup *)

Lemma App_init_entity_mk (d : RandomDraw) rs ss ps ms (systems : list (SystemPtr Renderer)) :
  App_init_entity d (mkECS (mk_storage rs ss ps ms) systems) =
  Ok (mkECS (mk_storage (rs ++ [draw_render d]) (ss ++ [draw_size d])
               (ps ++ [draw_position d]) (ms ++ [draw_movement d])) systems).
Proof.
  unfold App_init_entity, draw_render, draw_size, draw_position, draw_movement.
  destruct (rnd_color d) as [[c0 c1] c2].
  rewrite ECS_add_component_mk. cbn [Result_bind replace select].
  rewrite ECS_add_component_mk. cbn [Result_bind replace select].
  rewrite ECS_add_component_mk. cbn [Result_bind replace select].
  rewrite ECS_add_component_mk. reflexivity.
Qed.

Lemma App_init_entities_mk (random : nat -> RandomDraw) (count : nat) :
  forall (start : nat) rs ss ps ms (systems : list (SystemPtr Renderer)),
  App_init_entities random start count (mkECS (mk_storage rs ss ps ms) systems) =
  Ok (mkECS (mk_storage
               (rs ++ map (fun i => draw_render (random i)) (seq start count))
               (ss ++ map (fun i => draw_size (random i)) (seq start count))
               (ps ++ map (fun i => draw_position (random i)) (seq start count))
               (ms ++ map (fun i => draw_movement (random i)) (seq start count)))
        systems).
Proof.
  induction count as [| count IH]; intros start rs ss ps ms systems.
  - cbn. rewrite !app_nil_r. reflexivity.
  - cbn [App_init_entities seq map]. rewrite App_init_entity_mk. cbn [Result_bind].
    rewrite IH, <- !app_assoc. reflexivity.
Qed.

Lemma lookup_map_seq {A : Type} (f : nat -> A) (count index : nat) :
  (index < count)%nat -> map f (seq 0 count) !! index = Some (f index).
Proof.
  intros Hi. change (map f (seq 0 count)) with (f <$> seq 0 count).
  rewrite list_lookup_fmap, lookup_seq_lt by assumption. reflexivity.
Qed.

(** [App::init] always completes the population and the registration. It
    leaves every container at the population count, entity [i] holding the
    components built from the random numbers of iteration [i] (the colour
    takes its blue channel from the second number, like its green one, and
    has alpha [1.0]); and it registers the [RenderSystem] first and the
    [MovementSystem] of the [800 x 600] domain second. *)
Theorem App_init_contents (count : nat) (random : nat -> RandomDraw) :
  exists ecs : ECS Renderer,
    App_init count random = Ok ecs /\
    storage_wf (m_storage ecs) /\
    m_systems ecs =
      [ mkSystemPtr RenderSystem (RenderSystem_System count)
          (mkRenderSystem App_mesh_id App_particle_shader_id);
        mkSystemPtr MovementSystem (MovementSystem_System count)
          (mkMovementSystem (mkSize 800 600)) ] /\
    (forall T, container_length T (m_storage ecs) = Ok count) /\
    (forall index, (index < count)%nat ->
       component TRender index (m_storage ecs) = Ok (draw_render (random index)) /\
       component TSize index (m_storage ecs) = Ok (draw_size (random index)) /\
       component TPosition index (m_storage ecs) = Ok (draw_position (random index)) /\
       component TMovement index (m_storage ecs) = Ok (draw_movement (random index))) /\
    (forall index rc,
       component TRender index (m_storage ecs) = Ok rc ->
       b (color rc) = g (color rc) /\ a (color rc) = float_literal 1 1).
Proof.
  unfold App_init, ECS_ctor. cbn [foldl Types fst snd].
  change (mkECS _ []) with (mkECS (Env := Renderer) (mk_storage [] [] [] []) []).
  rewrite App_init_entities_mk. cbn [Result_bind app].
  eexists. split; [reflexivity |].
  cbn [ECS_add_system m_storage m_systems app].
  split; [apply mk_storage_wf |]. split; [reflexivity |].
  split; [| split].
  - intros T. rewrite container_length_mk.
    destruct T; norm_storage; rewrite length_map, length_seq; reflexivity.
  - intros index Hi. rewrite !component_mk. norm_storage.
    rewrite !lookup_map_seq by assumption. auto.
  - intros index rc Hrc. apply component_Ok in Hrc. norm_storage.
    unfold StorageContainer in Hrc. cbn [select component_t] in Hrc.
    assert (Hi : (index < count)%nat).
    { apply lookup_lt_Some in Hrc. rewrite length_map, length_seq in Hrc. exact Hrc. }
    rewrite lookup_map_seq in Hrc by assumption. injection Hrc as <-.
    unfold draw_render. destruct (rnd_color (random index)) as [[c0 c1] c2].
    split; reflexivity.
Qed.

(** ** The order of the two systems in a tick *)

(** With the systems in the order [App::init] registers them, a completed
    tick first renders and then moves: the submissions it adds are those
    of [RenderSystem::update()] on the storage as it was before the tick,
    and the storage it leaves is that storage moved once. What an entity
    is drawn at is therefore its position before the tick's movement. *)
Theorem ECS_update_draws_before_moving (count : nat) (r : RenderSystem) (mv : MovementSystem)
    (st : StorageType) (queue queue' : Renderer) (self' : ECS Renderer) :
  storage_wf st ->
  ECS_update
    (mkECS st [ mkSystemPtr RenderSystem (RenderSystem_System count) r;
                mkSystemPtr MovementSystem (MovementSystem_System count) mv ]) queue =
  Ok (self', queue') ->
  m_systems self' =
    [ mkSystemPtr RenderSystem (RenderSystem_System count) r;
      mkSystemPtr MovementSystem (MovementSystem_System count) mv ] /\
  RenderSystem_update count r (st, queue) = Ok (tt, (st, queue')) /\
  MovementSystem_update count mv (st, queue') = Ok (tt, (m_storage self', queue')).
Proof.
  intros Hwf Hrun. unfold ECS_update in Hrun. cbn [m_systems m_storage for_each_system] in Hrun.
  unfold bind at 1 in Hrun.
  change (SystemPtr_update (mkSystemPtr RenderSystem (RenderSystem_System count) r) (st, queue))
    with (RenderSystem_update count r (st, queue)) in Hrun.
  destruct (RenderSystem_update count r (st, queue)) as [[[] [st1 queue1]] | f] eqn:Er;
    [| discriminate].
  destruct (storage_wf_mk st Hwf) as (rs & ss & ps & ms & ->).
  apply RenderSystem_update_Ok in Er as H. destruct H as [-> _].
  unfold bind at 1 in Hrun.
  change (SystemPtr_update (mkSystemPtr MovementSystem (MovementSystem_System count) mv)
            (mk_storage rs ss ps ms, queue1))
    with (MovementSystem_update count mv (mk_storage rs ss ps ms, queue1)) in Hrun.
  destruct (MovementSystem_update count mv (mk_storage rs ss ps ms, queue1))
    as [[[] [st2 queue2]] | f] eqn:Em; [| discriminate].
  apply MovementSystem_update_Ok in Em as H. destruct H as [-> _].
  cbn in Hrun. injection Hrun as <- <-. cbn [m_systems m_storage]. auto.
Qed.

Lemma ECS_update_draws_before_moving_witness :
  m_systems (mkECS sample_storage_moved (m_systems sample_ecs)) =
    [ mkSystemPtr RenderSystem (RenderSystem_System 2) sample_render_system;
      mkSystemPtr MovementSystem (MovementSystem_System 2) window_domain ] /\
  RenderSystem_update 2 sample_render_system (sample_storage, []) =
    Ok (tt, (sample_storage, sample_draws)) /\
  MovementSystem_update 2 window_domain (sample_storage, sample_draws) =
    Ok (tt, (m_storage (mkECS sample_storage_moved (m_systems sample_ecs)), sample_draws)).
Proof.
  apply (ECS_update_draws_before_moving 2 sample_render_system window_domain
           sample_storage [] sample_draws
           (mkECS sample_storage_moved (m_systems sample_ecs))).
  - solve_storage_wf.
  - reflexivity.
Defined.

(** ** [App::tick] *)

Lemma in_range64_representable (z : Z) : Int64.in_range z = true <-> representable64 z.
Proof.
  unfold Int64.in_range, representable64.
  rewrite andb_true_iff, !Z.leb_le. reflexivity.
Qed.

Lemma checked64_Ok (z v : Z) : Int64.checked z = Ok v <-> representable64 z /\ v = z.
Proof.
  unfold Int64.checked. rewrite <- in_range64_representable.
  destruct (Int64.in_range z); split.
  - intros [= <-]. auto.
  - intros [_ ->]. reflexivity.
  - discriminate.
  - intros [[=] _].
Qed.

Lemma checked64_Raise (z : Z) (f : Fault) :
  Int64.checked z = Raise f <-> ~ representable64 z /\ f = SignedOverflow.
Proof.
  unfold Int64.checked. rewrite <- in_range64_representable.
  destruct (Int64.in_range z); split.
  - discriminate.
  - intros [H _]. exfalso. apply H. reflexivity.
  - intros [= <-]. split; [discriminate | reflexivity].
  - intros [_ ->]. reflexivity.
Qed.

(** [App::tick] completes exactly when its three additions stay in range,
    and then leaves [App_tick_result]. *)
Lemma App_tick_Ok_iff (now : Z) (self self' : FrameCounter) :
  App_tick now self = Ok self' <->
  representable64 (now - m_last_frame_time self) /\
  representable64 (m_frame_time self + (now - m_last_frame_time self)) /\
  (m_frame_time self + (now - m_last_frame_time self) <= one_second ->
   representable (m_current_fps self + 1)) /\
  self' = App_tick_result now self.
Proof.
  unfold App_tick, App_tick_result, Int64.sub, Int64.add, Int.add.
  destruct (Int64.checked (now - m_last_frame_time self)) as [d | f] eqn:Ed;
    cbn [Result_bind].
  2:{ apply checked64_Raise in Ed as [Hn _]. split; [discriminate | tauto]. }
  apply checked64_Ok in Ed as [Hd ->].
  destruct (Int64.checked (m_frame_time self + (now - m_last_frame_time self)))
    as [t | f] eqn:Et; cbn [Result_bind].
  2:{ apply checked64_Raise in Et as [Hn _]. split; [discriminate | tauto]. }
  apply checked64_Ok in Et as [Ht ->].
  rewrite tick_rollover_spec. cbn [m_frame_time]. cbv zeta.
  destruct (Z.leb_spec (m_frame_time self + (now - m_last_frame_time self)) one_second)
    as [L1 | L1];
    cbn [m_fps m_current_fps m_frame_time m_last_frame_duration m_last_frame_time].
  - destruct (Int.checked (m_current_fps self + 1)) as [c | f] eqn:Ec; cbn [Result_bind].
    + apply checked_Ok in Ec as [Hc ->]. split.
      * intros [= <-]. auto.
      * intros (_ & _ & _ & ->). reflexivity.
    + apply checked_Raise in Ec as [Hn _]. split; [discriminate | tauto].
  - change (Int.checked (0 + 1)) with (Ok (0 + 1) : Result Z). cbn [Result_bind]. split.
    + intros [= <-]. repeat (split; [assumption || (intros; lia) |]). reflexivity.
    + intros (_ & _ & _ & ->). reflexivity.
Qed.

Lemma App_tick_Raise (now : Z) (self : FrameCounter) (f : Fault) :
  App_tick now self = Raise f -> f = SignedOverflow.
Proof.
  intros H. unfold App_tick, Int64.sub, Int64.add, Int.add in H.
  unfold Int64.checked, Int.checked in H.
  repeat match type of H with
         | context [if ?c then _ else _] => destruct c; cbn [Result_bind] in H
         end; congruence.
Qed.

(** The fields of [App_tick_result] in the three cases of the accumulated
    time. *)
Lemma App_tick_result_fields (now : Z) (self : FrameCounter) :
  let total := m_frame_time self + (now - m_last_frame_time self) in
  let self' := App_tick_result now self in
  m_last_frame_duration self' = now - m_last_frame_time self /\
  m_last_frame_time self' = now /\
  (total <= one_second ->
     m_fps self' = m_fps self /\
     m_current_fps self' = m_current_fps self + 1 /\
     m_frame_time self' = total) /\
  (one_second < total <= 2 * one_second ->
     m_fps self' = m_current_fps self /\
     m_current_fps self' = 1 /\
     m_frame_time self' = total - one_second) /\
  (2 * one_second < total ->
     m_fps self' = 0 /\
     m_current_fps self' = 1 /\
     0 < m_frame_time self' <= one_second /\
     (total - m_frame_time self') mod one_second = 0).
Proof.
  intros total self'. unfold self', App_tick_result. cbv zeta. fold total.
  cbn [m_fps m_current_fps m_frame_time m_last_frame_duration m_last_frame_time].
  assert (Hpos : 0 < one_second) by reflexivity.
  split; [reflexivity |]. split; [reflexivity |].
  destruct (Z.leb_spec total one_second) as [L1 | L1].
  - split; [auto |]. split; intros; lia.
  - split; [intros; lia |].
    pose proof (Z.mod_pos_bound (total - 1) one_second Hpos) as Hm.
    split.
    + intros [_ L2].
      destruct (Z.leb_spec total (2 * one_second)); [| lia].
      split; [reflexivity |]. split; [reflexivity |].
      rewrite <- (Z.mod_unique_pos (total - 1) one_second 1 (total - 1 - one_second)); lia.
    + intros L2.
      destruct (Z.leb_spec total (2 * one_second)); [lia |].
      split; [reflexivity |]. split; [reflexivity |]. split; [lia |].
      replace (total - ((total - 1) mod one_second + 1))
        with (one_second * ((total - 1) / one_second)).
      * rewrite Z.mul_comm. apply Z_mod_mult.
      * pose proof (Z.div_mod (total - 1) one_second). lia.
Qed.

(** One call of [tick], with [total] the time accumulated since the last
    report plus the duration of this frame:
    - up to and including one second, the frame is counted and the
      reported rate is left alone;
    - past one second and up to two, the count of frames is reported, the
      counter restarts at one (this frame), and one second is taken off
      the accumulated time;
    - past two seconds the rate reported is zero, whatever had been
      counted, and the time kept is what is left in [(0, 1s]].
    The duration of the frame and the clock reading are recorded. *)
Theorem App_tick_closed_form (now : Z) (self : FrameCounter) :
  let duration := now - m_last_frame_time self in
  let total := m_frame_time self + duration in
  representable64 duration ->
  representable64 total ->
  (total <= one_second -> representable (m_current_fps self + 1)) ->
  exists self' : FrameCounter,
    App_tick now self = Ok self' /\
    m_last_frame_duration self' = duration /\
    m_last_frame_time self' = now /\
    (total <= one_second ->
       m_fps self' = m_fps self /\
       m_current_fps self' = m_current_fps self + 1 /\
       m_frame_time self' = total) /\
    (one_second < total <= 2 * one_second ->
       m_fps self' = m_current_fps self /\
       m_current_fps self' = 1 /\
       m_frame_time self' = total - one_second) /\
    (2 * one_second < total ->
       m_fps self' = 0 /\
       m_current_fps self' = 1 /\
       0 < m_frame_time self' <= one_second /\
       (total - m_frame_time self') mod one_second = 0).
Proof.
  intros duration total Hd Ht Hc.
  exists (App_tick_result now self).
  split; [apply App_tick_Ok_iff; auto |].
  apply App_tick_result_fields.
Qed.

Lemma App_tick_closed_form_witness :
  exists self' : FrameCounter,
    App_tick 2500000000 (mkFrameCounter 60 42 300000000 16000000 1000000000) = Ok self' /\
    m_last_frame_duration self' = 2500000000 - 1000000000 /\
    m_last_frame_time self' = 2500000000 /\
    (300000000 + (2500000000 - 1000000000) <= one_second ->
       m_fps self' = 60 /\
       m_current_fps self' = 42 + 1 /\
       m_frame_time self' = 300000000 + (2500000000 - 1000000000)) /\
    (one_second < 300000000 + (2500000000 - 1000000000) <= 2 * one_second ->
       m_fps self' = 42 /\
       m_current_fps self' = 1 /\
       m_frame_time self' = 300000000 + (2500000000 - 1000000000) - one_second) /\
    (2 * one_second < 300000000 + (2500000000 - 1000000000) ->
       m_fps self' = 0 /\
       m_current_fps self' = 1 /\
       0 < m_frame_time self' <= one_second /\
       (300000000 + (2500000000 - 1000000000) - m_frame_time self') mod one_second = 0).
Proof.
  apply (App_tick_closed_form 2500000000
           (mkFrameCounter 60 42 300000000 16000000 1000000000)).
  - apply in_range64_representable. reflexivity.
  - apply in_range64_representable. reflexivity.
  - intros _. apply in_range_representable. reflexivity.
Defined.

(** [App::tick] completes exactly when the duration of the frame and the
    accumulated time fit a [steady_clock::duration] and, where the frame
    is counted into the running second, the counter can still be
    incremented; its only fault is signed overflow. *)
Theorem App_tick_defined (now : Z) (self : FrameCounter) :
  ((exists self', App_tick now self = Ok self') <->
   representable64 (now - m_last_frame_time self) /\
   representable64 (m_frame_time self + (now - m_last_frame_time self)) /\
   (m_frame_time self + (now - m_last_frame_time self) <= one_second ->
    representable (m_current_fps self + 1))) /\
  (forall f, App_tick now self = Raise f -> f = SignedOverflow).
Proof.
  split; [| apply App_tick_Raise]. split.
  - intros [self' H]. apply App_tick_Ok_iff in H. tauto.
  - intros (Hd & Ht & Hc). exists (App_tick_result now self).
    apply App_tick_Ok_iff. auto.
Qed.

(** ** Sequences of frames *)

Lemma last_cons {A : Type} (a d : A) (l : list A) :
  List.last (a :: l) d = List.last l a.
Proof.
  revert a d. induction l as [| b l IH]; intros a0 d0; [reflexivity |].
  change (List.last (a0 :: b :: l) d0) with (List.last (b :: l) d0).
  rewrite (IH b d0), (IH b a0). reflexivity.
Qed.

Lemma monotone_from_last (from : Z) (nows : list Z) :
  monotone_from from nows -> from <= List.last nows from.
Proof.
  revert from. induction nows as [| now rest IH]; intros from H.
  - cbn. lia.
  - destruct H as [H1 H2]. rewrite last_cons. specialize (IH now H2). lia.
Qed.

(** With a clock that never goes back, the frame counter keeps its
    invariant over any completed sequence of ticks: the accumulated time
    stays between zero and one second, the rate and the count stay
    non-negative, and the last reading recorded is the last one taken. *)
Theorem App_ticks_invariant (nows : list Z) :
  forall self self' : FrameCounter,
  monotone_from (m_last_frame_time self) nows ->
  0 <= m_frame_time self <= one_second ->
  0 <= m_fps self ->
  0 <= m_current_fps self ->
  App_ticks nows self = Ok self' ->
  0 <= m_frame_time self' <= one_second /\
  0 <= m_fps self' /\
  0 <= m_current_fps self' /\
  m_last_frame_time self' = List.last nows (m_last_frame_time self).
Proof.
  induction nows as [| now rest IH]; intros self self' Hmono Hft Hfps Hcur Hrun.
  - injection Hrun as <-. auto.
  - destruct Hmono as [Hnow Hrest]. cbn [App_ticks] in Hrun.
    destruct (App_tick now self) as [self1 | f] eqn:E1; [| discriminate].
    cbn [Result_bind] in Hrun.
    apply App_tick_Ok_iff in E1 as (_ & _ & _ & ->).
    destruct (App_tick_result_fields now self) as (_ & Hlast & Hshort & Hroll & Hlong).
    rewrite last_cons, <- Hlast.
    assert (Hpos : 0 < one_second) by reflexivity.
    assert (Hinv : 0 <= m_frame_time (App_tick_result now self) <= one_second /\
                   0 <= m_fps (App_tick_result now self) /\
                   0 <= m_current_fps (App_tick_result now self)).
    { destruct (Z.le_gt_cases (m_frame_time self + (now - m_last_frame_time self)) one_second)
        as [L1 | L1].
      - destruct (Hshort L1) as (-> & -> & ->). lia.
      - destruct (Z.le_gt_cases (m_frame_time self + (now - m_last_frame_time self))
                    (2 * one_second)) as [L2 | L2].
        + destruct (Hroll (conj L1 L2)) as (-> & -> & ->). lia.
        + destruct (Hlong L2) as (-> & -> & Hb & _). lia. }
    destruct Hinv as (I1 & I2 & I3).
    apply (IH (App_tick_result now self) self'); assumption.
Qed.

Lemma App_ticks_invariant_witness :
  0 <= m_frame_time (mkFrameCounter 1 1 500000000 1300000000 2500000000) <= one_second /\
  0 <= m_fps (mkFrameCounter 1 1 500000000 1300000000 2500000000) /\
  0 <= m_current_fps (mkFrameCounter 1 1 500000000 1300000000 2500000000) /\
  m_last_frame_time (mkFrameCounter 1 1 500000000 1300000000 2500000000) =
    List.last [400000000; 1200000000; 2500000000] 0.
Proof.
  apply (App_ticks_invariant [400000000; 1200000000; 2500000000]
           (App_run_start 0 (mkFrameCounter 0 0 0 0 0))
           (mkFrameCounter 1 1 500000000 1300000000 2500000000)).
  - cbn. lia.
  - cbn. unfold one_second. lia.
  - cbn. lia.
  - cbn. lia.
  - reflexivity.
Defined.

(** Frames within one second are counted. *)
Lemma App_ticks_within_second (nows : list Z) :
  forall self : FrameCounter,
  monotone_from (m_last_frame_time self) nows ->
  0 <= m_frame_time self ->
  m_frame_time self + (List.last nows (m_last_frame_time self) - m_last_frame_time self)
    <= one_second ->
  representable (m_current_fps self) ->
  representable (m_current_fps self + Z.of_nat (length nows)) ->
  exists counted : FrameCounter,
    App_ticks nows self = Ok counted /\
    m_fps counted = m_fps self /\
    m_current_fps counted = m_current_fps self + Z.of_nat (length nows) /\
    m_frame_time counted =
      m_frame_time self +
      (List.last nows (m_last_frame_time self) - m_last_frame_time self) /\
    m_last_frame_time counted = List.last nows (m_last_frame_time self).
Proof.
  induction nows as [| now rest IH]; intros self Hmono Hft Htotal Hc0 Hcn.
  - exists self. cbn. repeat split; lia.
  - destruct Hmono as [Hnow Hrest]. rewrite last_cons in *.
    pose proof (monotone_from_last now rest Hrest) as Hlast.
    assert (Hpos : 0 < one_second) by reflexivity.
    assert (Hn : 0 <= Z.of_nat (length rest)) by lia.
    assert (Hlen : Z.of_nat (length (now :: rest)) = Z.of_nat (length rest) + 1)
      by (cbn [length]; lia).
    rewrite Hlen in *.
    assert (E1 : App_tick now self = Ok (App_tick_result now self)).
    { apply App_tick_Ok_iff. unfold representable64, representable in *.
      unfold Int64.INT64_MIN, Int64.INT64_MAX, Int.INT_MIN, Int.INT_MAX, one_second in *.
      repeat split; try lia. }
    destruct (App_tick_result_fields now self) as (_ & Hl & Hshort & _ & _).
    destruct Hshort as (F1 & F2 & F3); [lia |].
    destruct (IH (App_tick_result now self)) as (counted & E & G1 & G2 & G3 & G4).
    + rewrite Hl. exact Hrest.
    + rewrite F3. lia.
    + rewrite F3, Hl. lia.
    + rewrite F2. unfold representable in *. lia.
    + rewrite F2. unfold representable in *. lia.
    + exists counted. cbn [App_ticks]. rewrite E1. cbn [Result_bind].
      split; [exact E |]. rewrite G1, G2, G3, G4, F1, F2, F3, Hl.
      repeat split; lia.
Qed.

(** The rate reported is the number of frames of the second: after frames
    that all fall within one second of accumulated time, a frame that
    takes the accumulated time past one second (and not past two) reports
    the count reached, the frames counted before plus those frames; that
    frame itself opens the count of the next second. *)
Theorem App_ticks_report_frames (nows : list Z) (crossing : Z) (self : FrameCounter) :
  let start := m_last_frame_time self in
  let finish := List.last nows start in
  let frames := m_current_fps self + Z.of_nat (length nows) in
  monotone_from start nows ->
  0 <= m_frame_time self ->
  m_frame_time self + (finish - start) <= one_second ->
  one_second < m_frame_time self + (crossing - start) <= 2 * one_second ->
  representable (m_current_fps self) ->
  representable frames ->
  exists counted reported : FrameCounter,
    App_ticks nows self = Ok counted /\
    m_fps counted = m_fps self /\
    m_current_fps counted = frames /\
    App_tick crossing counted = Ok reported /\
    m_fps reported = frames /\
    m_current_fps reported = 1 /\
    m_frame_time reported = m_frame_time self + (crossing - start) - one_second /\
    App_ticks (nows ++ [crossing]) self = Ok reported.
Proof.
  intros start finish frames Hmono Hft Htotal Hcross Hc0 Hcn.
  destruct (App_ticks_within_second nows self Hmono Hft Htotal Hc0 Hcn)
    as (counted & E & G1 & G2 & G3 & G4).
  fold start in G3, G4. fold finish in G3, G4. fold frames in G2.
  pose proof (monotone_from_last start nows Hmono) as Hlast. fold finish in Hlast.
  assert (Hpos : 0 < one_second) by reflexivity.
  assert (E2 : App_tick crossing counted = Ok (App_tick_result crossing counted)).
  { apply App_tick_Ok_iff. rewrite G3, G4.
    unfold representable64, Int64.INT64_MIN, Int64.INT64_MAX, one_second in *.
    repeat split; try lia. }
  destruct (App_tick_result_fields crossing counted) as (_ & _ & _ & Hroll & _).
  rewrite G3, G4 in Hroll.
  destruct Hroll as (R1 & R2 & R3); [lia |].
  exists counted, (App_tick_result crossing counted).
  split; [exact E |]. split; [exact G1 |]. split; [exact G2 |]. split; [exact E2 |].
  split; [rewrite R1; exact G2 |]. split; [exact R2 |]. split; [rewrite R3; lia |].
  clear -E E2. revert self E. induction nows as [| now rest IH]; intros self E.
  - injection E as ->. cbn [app App_ticks]. rewrite E2. reflexivity.
  - cbn [app App_ticks] in *.
    destruct (App_tick now self) as [self1 |]; [| discriminate].
    cbn [Result_bind] in *. apply IH. exact E.
Qed.

Lemma App_ticks_report_frames_witness :
  exists counted reported : FrameCounter,
    App_ticks [400000000; 900000000] (mkFrameCounter 0 0 0 0 0) = Ok counted /\
    m_fps counted = 0 /\
    m_current_fps counted = 0 + Z.of_nat (length [400000000; 900000000]) /\
    App_tick 1300000000 counted = Ok reported /\
    m_fps reported = 0 + Z.of_nat (length [400000000; 900000000]) /\
    m_current_fps reported = 1 /\
    m_frame_time reported = 0 + (1300000000 - 0) - one_second /\
    App_ticks ([400000000; 900000000] ++ [1300000000]) (mkFrameCounter 0 0 0 0 0) =
      Ok reported.
Proof.
  apply (App_ticks_report_frames [400000000; 900000000] 1300000000
           (mkFrameCounter 0 0 0 0 0)).
  - cbn. lia.
  - cbn. lia.
  - cbn. unfold one_second. lia.
  - cbn. unfold one_second. lia.
  - apply in_range_representable. reflexivity.
  - apply in_range_representable. reflexivity.
Defined.
